(** * pubsub-to-pubsub: a shallow embedding of the relay and its start-up

    The repository is one Go command ([cmd], the cobra root command with its
    [Run] function, [init], [configureFlag] and [initConfig]) and one helper
    package ([util], with [SetLogger]).  The command reads its configuration
    through viper, builds two Pub/Sub clients, and hands a receive callback to
    [Subscription.Receive]; the callback publishes every message it is given
    to the destination topic and acks or nacks the source message.

    Layout of this file:
    - Go values the code manipulates ([error], strings, [fmt]'s [%v]);
    - the libraries the code calls, each in a module named after the Go
      package ([logrus], [viper], [pubsub]).  They are not part of the
      repository: what is modelled of them is their documented contract,
      and whatever depends on the outside world (credential parsing, client
      construction, the deliveries of a subscription) is a field of [Env];
    - the code of the repository, function by function, in a small monad
      that threads the process state and stops at [os.Exit];
    - the theorems. *)

From stdpp Require Import base option list strings gmap.
From Stdlib Require Import Ascii ZArith Lia.

Open Scope string_scope.

(** ** Go values *)

(** A Go [error]: [None] is [nil], [Some s] an error whose [Error()] is [s]. *)
Definition error := option string.

(** [fmt]'s [%v] applied to an [error]. *)
Definition fmt_v (e : error) : string :=
  match e with
  | Some s => s
  | None => "<nil>"
  end.

(** [strings.ToLower] and [strings.ToUpper], on the bytes of the UTF-8
    string.  An ASCII letter changes case.  Two runes outside ASCII are
    lowered by Go's [unicode.ToLower] to an ASCII letter, U+0130 (bytes C4 B0)
    to [i] and U+212A (bytes E2 84 AA) to [k]; two are raised by
    [unicode.ToUpper] to an ASCII letter, U+0131 (bytes C4 B1) to [I] and
    U+017F (bytes C5 BF) to [S].  Every other rune outside ASCII is mapped by
    Go to a rune outside ASCII and keeps its bytes here, so that a result made
    of ASCII characters, which is what the level names and the parameter
    names are compared with, is the one Go computes. *)
Definition lower_ascii (c : ascii) : ascii :=
  let n := nat_of_ascii c in
  if (65 <=? n)%nat && (n <=? 90)%nat then ascii_of_nat (n + 32) else c.

Definition upper_ascii (c : ascii) : ascii :=
  let n := nat_of_ascii c in
  if (97 <=? n)%nat && (n <=? 122)%nat then ascii_of_nat (n - 32) else c.

Fixpoint map_string (f : ascii -> ascii) (s : string) : string :=
  match s with
  | EmptyString => EmptyString
  | String c s' => String (f c) (map_string f s')
  end.


Fixpoint ToLower (s : string) : string :=
  match s with
  | EmptyString => EmptyString
  | String c1 s1 =>
      match s1 with
      | EmptyString => String (lower_ascii c1) EmptyString
      | String c2 s2 =>
          if Ascii.eqb c1 "196"%char && Ascii.eqb c2 "176"%char
          then String "i" (ToLower s2)
          else
            match s2 with
            | EmptyString => String (lower_ascii c1) (ToLower s1)
            | String c3 s3 =>
                if Ascii.eqb c1 "226"%char && Ascii.eqb c2 "132"%char
                   && Ascii.eqb c3 "170"%char
                then String "k" (ToLower s3)
                else String (lower_ascii c1) (ToLower s1)
            end
      end
  end.

Fixpoint ToUpper (s : string) : string :=
  match s with
  | EmptyString => EmptyString
  | String c1 s1 =>
      match s1 with
      | EmptyString => String (upper_ascii c1) EmptyString
      | String c2 s2 =>
          if Ascii.eqb c1 "196"%char && Ascii.eqb c2 "177"%char
          then String "I" (ToUpper s2)
          else if Ascii.eqb c1 "197"%char && Ascii.eqb c2 "191"%char
          then String "S" (ToUpper s2)
          else String (upper_ascii c1) (ToUpper s1)
      end
  end.

(** [strings.NewReplacer(old, new).Replace] for one-character [old] and
    [new], which is how [initConfig] uses it. *)
Definition Replace (old new : ascii) : string -> string :=
  map_string (fun c => if Ascii.eqb c old then new else c).

(** ** logrus *)

Module logrus.

(** [logrus.Level], in the order of the library's constants. *)
Inductive Level :=
| PanicLevel | FatalLevel | ErrorLevel | WarnLevel
| InfoLevel | DebugLevel | TraceLevel.

(** The two formatters [SetLogger] installs, with the options it gives. *)
Inductive Formatter :=
| JSONFormatter (FieldKeyLevel FieldKeyMsg : string)
| TextFormatter (QuoteEmptyFields FullTimestamp ForceColors
                 DisableLevelTruncation : bool).

(** The state of the package-level (standard) logger. *)
Record Logger := mkLogger {
  formatter : Formatter;
  level : Level
}.

(** The standard logger before any call: text output, level info. *)
Definition std : Logger :=
  {| formatter := TextFormatter false false false false;
     level := InfoLevel |}.

(** [fmt]'s [%q], which is [strconv.Quote]: the string between double
    quotes, with a backslash before a double quote and before a backslash,
    the escapes [\a \b \t \n \v \f \r] for the control characters that
    have one and [\x] with two hexadecimal digits for the others and for
    DEL.  A printable ASCII character stands for itself; so does a byte of a
    rune outside ASCII, which is right for the printable runes of a valid
    UTF-8 string. *)
Definition hex_digit (n : nat) : ascii :=
  default "0"%char (String.get n "0123456789abcdef").

Definition backslash : ascii := ascii_of_nat 92.

Definition quote_char (c : ascii) : string :=
  let n := nat_of_ascii c in
  let esc (x : ascii) := String backslash (String x EmptyString) in
  if (n =? 34)%nat || (n =? 92)%nat then esc c
  else if (n =? 7)%nat then esc "a"%char
  else if (n =? 8)%nat then esc "b"%char
  else if (n =? 9)%nat then esc "t"%char
  else if (n =? 10)%nat then esc "n"%char
  else if (n =? 11)%nat then esc "v"%char
  else if (n =? 12)%nat then esc "f"%char
  else if (n =? 13)%nat then esc "r"%char
  else if (n <? 32)%nat || (n =? 127)%nat
       then String backslash
              (String "x" (String (hex_digit (n / 16))
                             (String (hex_digit (n mod 16)) EmptyString)))
  else String c EmptyString.

Fixpoint quote_chars (s : string) : string :=
  match s with
  | EmptyString => EmptyString
  | String c s' => quote_char c ++ quote_chars s'
  end.

Definition fmt_q (s : string) : string :=
  let q := String (ascii_of_nat 34) EmptyString in q ++ quote_chars s ++ q.

(** [logrus.ParseLevel] as the library has it: the name is compared in
    lower case ([strings.ToLower], so that a name spelled with U+0130 for
    [i] is accepted as well); [warn] has the alias [warning].  On failure Go returns the
    zero [Level], which is [PanicLevel], with the error. *)
Definition ParseLevel (lvl : string) : Level * error :=
  let l := ToLower lvl in
  if String.eqb l "panic" then (PanicLevel, None)
  else if String.eqb l "fatal" then (FatalLevel, None)
  else if String.eqb l "error" then (ErrorLevel, None)
  else if String.eqb l "warn" || String.eqb l "warning" then (WarnLevel, None)
  else if String.eqb l "info" then (InfoLevel, None)
  else if String.eqb l "debug" then (DebugLevel, None)
  else if String.eqb l "trace" then (TraceLevel, None)
  else (PanicLevel, Some ("not a valid logrus Level: " ++ fmt_q lvl)).

End logrus.

(** ** golang.org/x/oauth2/google and cloud.google.com/go/pubsub *)

Module google.

(** [*google.Credentials]: what the program does with it is to pass it on,
    so the parsed document stands for it. *)
Record Credentials := mkCredentials {
  JSON : string;
  scope : string
}.

End google.

Module pubsub.

Definition ScopePubSub : string := "https://www.googleapis.com/auth/pubsub".

(** [pubsub.Message]: identifier, payload and attributes.  The delivery
    handle (the ack id) is the number of the delivery, see [Invocation]. *)
Record Message := mkMessage {
  ID : string;
  Data : string;
  Attributes : gmap string string
}.

Record Client := mkClient {
  projectID : string;
  credentials : option google.Credentials
}.

Record ReceiveSettings := mkReceiveSettings {
  MaxOutstandingMessages : Z
}.

(** [pubsub.DefaultReceiveSettings], as far as the program touches it. *)
Definition DefaultReceiveSettings : ReceiveSettings :=
  {| MaxOutstandingMessages := 1000 |}.

Record Subscription := mkSubscription {
  sub_client : Client;
  sub_name : string;
  sub_ReceiveSettings : ReceiveSettings
}.

Record Topic := mkTopic {
  topic_client : Client;
  topic_name : string
}.

(** [Client.Subscription] and [Client.Topic]: handles, no request is sent. *)
Definition NewSubscription (c : Client) (name : string) : Subscription :=
  {| sub_client := c; sub_name := name;
     sub_ReceiveSettings := DefaultReceiveSettings |}.

Definition NewTopic (c : Client) (name : string) : Topic :=
  {| topic_client := c; topic_name := name |}.

(** The assignment [sub.ReceiveSettings.MaxOutstandingMessages = n]. *)
Definition set_MaxOutstandingMessages (n : Z) (s : Subscription)
  : Subscription :=
  {| sub_client := sub_client s; sub_name := sub_name s;
     sub_ReceiveSettings := {| MaxOutstandingMessages := n |} |}.

(** *** [Subscription.Receive]

    [Receive] runs the callback on every message it pulls, each call in a
    goroutine of its own, and returns once it has stopped pulling and
    every call has returned.  The goroutines are modelled by interleaving:
    a callback is a small-step program over a control state [L], its steps
    read and write the state [S] that the calls share (the variables the
    closure captured) and emit events [E].  An execution is a list of
    [Action]s, chosen by the scheduler and the broker. *)
Section Receive.

Context {S L E : Type}.

(** A callback: where it starts, what one step does (the new shared
    state, the next control point or [None] once it has returned, the
    events of the step), and a bound on the steps of one call. *)
Record Callback := mkCallback {
  cb_entry : L;
  cb_step : nat -> Message -> S -> L -> S * option L * list E;
  cb_fuel : nat
}.

(** One call of the callback: its message and where it stands ([None]:
    it has returned).  Its index in the pool is the delivery number. *)
Record Invocation := mkInvocation {
  inv_msg : Message;
  inv_at : option L
}.

Record Pool := mkPool {
  shared : S;
  invocations : list Invocation;
  trace : list E
}.

Inductive Action :=
| Deliver (m : Message)
| Step (d : nat).

Definition running (i : Invocation) : bool :=
  match inv_at i with Some _ => true | None => false end.

(** Messages handed to the callback and not yet done with. *)
Definition outstanding (p : Pool) : nat :=
  length (filter (fun i => running i = true) (invocations p)).

(** Flow control as [ReceiveSettings] documents it: a negative
    [MaxOutstandingMessages] is no limit, zero is the default. *)
Definition limit (rs : ReceiveSettings) : option Z :=
  let n := MaxOutstandingMessages rs in
  if (n <? 0)%Z then None
  else if (n =? 0)%Z then Some (MaxOutstandingMessages DefaultReceiveSettings)
  else Some n.

Definition has_room (rs : ReceiveSettings) (p : Pool) : bool :=
  match limit rs with
  | None => true
  | Some n => (Z.of_nat (outstanding p) <? n)%Z
  end.

(** One action.  A message is handed to a new call of the callback when
    flow control has room for it, and stays with the broker otherwise; a
    step of call [d] is a step of its program on the shared state. *)
Definition step (cb : Callback) (rs : ReceiveSettings) (a : Action)
    (p : Pool) : Pool :=
  match a with
  | Deliver m =>
      if has_room rs p then
        {| shared := shared p;
           invocations :=
             invocations p ++ [ {| inv_msg := m; inv_at := Some (cb_entry cb) |} ];
           trace := trace p |}
      else p
  | Step d =>
      match invocations p !! d with
      | Some {| inv_msg := m; inv_at := Some l |} =>
          let '(s', l', evs) := cb_step cb d m (shared p) l in
          {| shared := s';
             invocations :=
               <[ d := {| inv_msg := m; inv_at := l' |} ]> (invocations p);
             trace := trace p ++ evs |}
      | _ => p
      end
  end.

Definition exec (cb : Callback) (rs : ReceiveSettings)
    (sched : list Action) (p : Pool) : Pool :=
  foldl (fun p a => step cb rs a p) p sched.

(** What is left to do when no more message is pulled: every call still
    running is run until it returns. *)
Definition finish_all (cb : Callback) (n : nat) : list Action :=
  d ← seq 0 n; replicate (cb_fuel cb) (Step d).

(** A whole run of [Receive]: the execution [sched], then the calls
    still running are waited for. *)
Definition run (cb : Callback) (rs : ReceiveSettings)
    (sched : list Action) (p : Pool) : Pool :=
  let p' := exec cb rs sched p in
  exec cb rs (finish_all cb (length (invocations p'))) p'.

End Receive.

End pubsub.

(** ** The operating system, github.com/spf13/pflag and github.com/spf13/viper *)

(** What the configuration code reads of the operating system: the
    environment, and for a path that names a configuration file viper can
    read and parse, its settings (keys in lower case, as viper keeps them). *)
Record OS := mkOS {
  environ : gmap string string;
  files : gmap string (gmap string string)
}.

Module pflag.

(** [pflag.Flag], for a string flag. *)
Record Flag := mkFlag {
  DefValue : string;
  Value : string;
  Changed : bool
}.

(** [FlagSet.String(name, value, usage)] and [FlagSet.StringVar]: a flag
    that holds its default. *)
Definition String (name value : string) (fs : gmap string Flag)
  : gmap string Flag :=
  <[ name := {| DefValue := value; Value := value; Changed := false |} ]> fs.

(** [FlagSet.Set]: what parsing [--name=value] does ([Set] is a keyword of
    Rocq, hence the name). *)
Definition Set_ (name value : string) (fs : gmap string Flag)
  : gmap string Flag * error :=
  match fs !! name with
  | Some f =>
      (<[ name := {| DefValue := DefValue f; Value := value; Changed := true |} ]> fs,
       None)
  | None => (fs, Some ("unknown flag: --" ++ name))
  end.

(** [FlagSet.Parse] on a command line of [--name=value] arguments. *)
Fixpoint Parse (args : list (string * string)) (fs : gmap string Flag)
  : gmap string Flag * error :=
  match args with
  | [] => (fs, None)
  | (name, value) :: args' =>
      match Set_ name value fs with
      | (fs', None) => Parse args' fs'
      | (fs', Some e) => (fs', Some e)
      end
  end.

End pflag.

Module viper.

(** The package-level viper, as far as the program configures it.
    [pflags] holds the names given to [BindPFlag]: the binding is to the
    flag itself (a pointer into the flag set of the command), so its value
    is read where the command keeps it, at the time of the lookup. *)
Record Viper := mkViper {
  pflags : gset string;
  envKeyReplacer : option (ascii * ascii);
  automaticEnvApplied : bool;
  configFile : string;
  config : gmap string string
}.

Definition New : Viper :=
  {| pflags := ∅; envKeyReplacer := None; automaticEnvApplied := false;
     configFile := EmptyString; config := ∅ |}.

Definition BindPFlag (key : string) (v : Viper) : Viper :=
  {| pflags := {[ ToLower key ]} ∪ pflags v;
     envKeyReplacer := envKeyReplacer v;
     automaticEnvApplied := automaticEnvApplied v;
     configFile := configFile v; config := config v |}.

Definition SetEnvKeyReplacer (old new : ascii) (v : Viper) : Viper :=
  {| pflags := pflags v; envKeyReplacer := Some (old, new);
     automaticEnvApplied := automaticEnvApplied v;
     configFile := configFile v; config := config v |}.

Definition AutomaticEnv (v : Viper) : Viper :=
  {| pflags := pflags v; envKeyReplacer := envKeyReplacer v;
     automaticEnvApplied := true;
     configFile := configFile v; config := config v |}.

(** [SetConfigFile]: an empty name is ignored. *)
Definition SetConfigFile (name : string) (v : Viper) : Viper :=
  if String.eqb name EmptyString then v
  else {| pflags := pflags v; envKeyReplacer := envKeyReplacer v;
          automaticEnvApplied := automaticEnvApplied v;
          configFile := name; config := config v |}.

(** [ReadInConfig]: with no file set viper searches its configuration
    paths, and the program adds none. *)
Definition ReadInConfig (os : OS) (v : Viper) : Viper * error :=
  if String.eqb (configFile v) EmptyString
  then (v, Some "Config File Not Found")
  else match files os !! configFile v with
       | Some settings =>
           ({| pflags := pflags v; envKeyReplacer := envKeyReplacer v;
               automaticEnvApplied := automaticEnvApplied v;
               configFile := configFile v; config := settings |}, None)
       | None => (v, Some ("cannot read " ++ configFile v))
       end.

Definition ConfigFileUsed (v : Viper) : string := configFile v.

(** [getEnv]: the replacer is applied to the name; a variable that is set
    to the empty string counts as unset. *)
Definition getEnv (os : OS) (v : Viper) (key : string) : option string :=
  let key := match envKeyReplacer v with
             | Some (old, new) => Replace old new key
             | None => key
             end in
  match environ os !! key with
  | Some val => if String.eqb val EmptyString then None else Some val
  | None => None
  end.

(** [find], the lookup behind every getter, in viper's order: a bound flag
    that was set on the command line, the environment, the configuration
    file, and last the value (the default) of a bound flag.  The program
    uses neither overrides, key/value stores nor [SetDefault]. *)
Definition find (os : OS) (flags : gmap string pflag.Flag) (v : Viper)
    (key : string) : option string :=
  let lcaseKey := ToLower key in
  let flag := if decide (lcaseKey ∈ pflags v) then flags !! lcaseKey else None in
  match flag with
  | Some {| pflag.Value := val; pflag.Changed := true |} => Some val
  | _ =>
    match (if automaticEnvApplied v then getEnv os v (ToUpper lcaseKey) else None) with
    | Some val => Some val
    | None =>
      match config v !! lcaseKey with
      | Some val => Some val
      | None => pflag.Value <$> flag
      end
    end
  end.

(** [GetString]: the empty string when [find] has nothing. *)
Definition GetString (os : OS) (flags : gmap string pflag.Flag) (v : Viper)
    (key : string) : string :=
  default EmptyString (find os flags v key).

End viper.

(** ** The process *)

(** What the process does to the outside, in the order it does it.  A [Log]
    event is a call of a logrus logging function at the given level (logrus
    writes the entry when the level set by [SetLogger] lets it through). *)
Inductive Event :=
| EvStderr (s : string)
| EvLog (lvl : logrus.Level) (fields : list (string * string)) (msg : string)
| EvCredentialsFromJSON (json scope : string)
| EvNewClient (project : string) (creds : option google.Credentials)
| EvReceive (sub : pubsub.Subscription)
| EvPublish (d : nat) (t : pubsub.Topic) (m : pubsub.Message) (r : error)
| EvAck (d : nat)
| EvNack (d : nat).

(** The state of the process: the standard logger and the events so far. *)
Record World := mkWorld {
  logger : logrus.Logger;
  events : list Event
}.

Definition World0 : World := {| logger := logrus.std; events := [] |}.

(** How a command ends: it returns, the process exits with a status, or the
    Go runtime panics. *)
Inductive Result (A : Type) :=
| Ret (a : A)
| Exited (code : Z)
| Panicked (msg : string).
Arguments Ret {A} a.
Arguments Exited {A} code.
Arguments Panicked {A} msg.

Definition M (A : Type) : Type := World -> Result A * World.

#[export] Instance M_ret : MRet M := fun A a w => (Ret a, w).

#[export] Instance M_bind : MBind M := fun A B f m w =>
  match m w with
  | (Ret a, w') => f a w'
  | (Exited c, w') => (Exited c, w')
  | (Panicked s, w') => (Panicked s, w')
  end.

Definition emit (e : Event) : M unit := fun w =>
  (Ret tt, {| logger := logger w; events := events w ++ [e] |}).

Definition when (b : bool) (m : M unit) : M unit :=
  if b then m else mret tt.

(** [os.Exit] *)
Definition os_Exit (code : Z) : M unit := fun w => (Exited code, w).

(** A method call through a pointer: a nil receiver is dereferenced. *)
Definition deref {A} (p : option A) : M A :=
  match p with
  | Some a => mret a
  | None => fun w =>
      (Panicked "invalid memory address or nil pointer dereference", w)
  end.

Definition nl : string := String (ascii_of_nat 10) EmptyString.

(** [fmt.Fprintf(os.Stderr, s)] *)
Definition Fprintf_Stderr (s : string) : M unit := emit (EvStderr s).

(** The logrus calls of the program. *)
Definition logrus_SetFormatter (f : logrus.Formatter) : M unit := fun w =>
  (Ret tt, {| logger := {| logrus.formatter := f;
                           logrus.level := logrus.level (logger w) |};
              events := events w |}).

Definition logrus_SetLevel (l : logrus.Level) : M unit := fun w =>
  (Ret tt, {| logger := {| logrus.formatter := logrus.formatter (logger w);
                           logrus.level := l |};
              events := events w |}).

Definition logrus_Debug (fields : list (string * string)) (msg : string)
  : M unit := emit (EvLog logrus.DebugLevel fields msg).

Definition logrus_Infof (msg : string) : M unit :=
  emit (EvLog logrus.InfoLevel [] msg).

Definition logrus_Errorf (msg : string) : M unit :=
  emit (EvLog logrus.ErrorLevel [] msg).

(** [logrus.Fatal] and [logrus.Fatalf]: the entry, then [os.Exit(1)]. *)
Definition logrus_Fatalf (msg : string) : M unit :=
  emit (EvLog logrus.FatalLevel [] msg) ;; os_Exit 1.

(** What the process asks of the outside world. *)
Record Env := mkEnv {
  (** the environment and the files of the process *)
  env_os : OS;
  (** [google.CredentialsFromJSON(ctx, json, scope)] *)
  env_CredentialsFromJSON : string -> string -> option google.Credentials * error;
  (** [pubsub.NewClient(ctx, project, option.WithCredentials(creds))] *)
  env_NewClient : string -> option google.Credentials -> option pubsub.Client * error;
  (** what [topic.Publish(ctx, msg).Get(ctx)] returns in delivery [d] *)
  env_Get : nat -> pubsub.Topic -> pubsub.Message -> error;
  (** the execution of [sub.Receive] and the error it returns; see
      [Receive_Background] for what the library promises of that error *)
  env_schedule : list pubsub.Action;
  env_Receive : error
}.

Definition CredentialsFromJSON (env : Env) (json scope : string)
  : M (option google.Credentials * error) :=
  emit (EvCredentialsFromJSON json scope) ;;
  mret (env_CredentialsFromJSON env json scope).

Definition NewClient (env : Env) (project : string)
    (creds : option google.Credentials) : M (option pubsub.Client * error) :=
  emit (EvNewClient project creds) ;;
  mret (env_NewClient env project creds).

(** ** package util *)

(** [util.SetLogger] *)
Definition SetLogger (ll lf : string) : M unit :=
  (if String.eqb lf "json"
   then logrus_SetFormatter (logrus.JSONFormatter "severity" "message")
   else logrus_SetFormatter (logrus.TextFormatter true true true true)) ;;
  let '(logLevel, err) := logrus.ParseLevel ll in
  match err with
  | Some e =>
      logrus_Errorf ("log level is not ok, setting to info by default : " ++ e) ;;
      logrus_SetLevel logrus.InfoLevel
  | None => logrus_SetLevel logLevel
  end.

(** ** package cmd: constants and configuration *)

Definition paramConfig := "config".
Definition paramLogFormat := "log-format".
Definition paramLogLevel := "log-level".
Definition paramFromGoogleCloudProject := "from-google-cloud-project".
Definition paramToGoogleCloudProject := "to-google-cloud-project".
Definition paramFromGoogleApplicationCredentials :=
  "from-google-application-credentials-json".
Definition paramToGoogleApplicationCredentials :=
  "to-google-application-credentials-json".
Definition paramPubSubSubscription := "pubsub-subscription".
Definition paramPubSubDestinationTopic := "pubsub-destination-topic".

Definition defaultLogLevel := "debug".
Definition defaultLogFormat := "json".

Definition pubSubMaxOutstandingMessages : Z := 10.

(** [Config] *)
Record Config := mkConfig {
  LogFormat : string;
  LogLevel : string;
  FromGoogleCloudProject : string;
  ToGoogleCloudProject : string;
  FromGoogleApplicationCredentials : string;
  ToGoogleApplicationCredentials : string;
  PubSubSubscription : string;
  PubSubDestinationTopic : string
}.

(** The fields of [Config] by parameter name, each with its Go type. *)
Inductive FieldValue :=
| StringField (s : string)
| IntField (n : Z).

Definition Config_fields : list (string * (Config -> FieldValue)) :=
  [ (paramLogFormat, fun c => StringField (LogFormat c));
    (paramLogLevel, fun c => StringField (LogLevel c));
    (paramFromGoogleCloudProject, fun c => StringField (FromGoogleCloudProject c));
    (paramToGoogleCloudProject, fun c => StringField (ToGoogleCloudProject c));
    (paramFromGoogleApplicationCredentials,
      fun c => StringField (FromGoogleApplicationCredentials c));
    (paramToGoogleApplicationCredentials,
      fun c => StringField (ToGoogleApplicationCredentials c));
    (paramPubSubSubscription, fun c => StringField (PubSubSubscription c));
    (paramPubSubDestinationTopic, fun c => StringField (PubSubDestinationTopic c)) ].

(** ** package cmd: the receive callback *)

(** The control points of the function literal given to [sub.Receive]:
<<
    if _, err = topic.Publish(ctx, msg).Get(ctx); err == nil {   AtPublish, AtTest
        msg.Ack()                                                 AtAck
    } else {
        logrus.Errorf("err when inserting data: %v", err)         AtErrorf
        msg.Nack()                                                AtNack
    }
>>
    [err] is not declared in the literal: the assignment, the test and the
    argument of [Errorf] are to the variable [err] of [Run], which the closure
    captures and every call of the callback shares. *)
Inductive pc := AtPublish | AtTest | AtAck | AtErrorf | AtNack.

Definition is_nil (e : error) : bool :=
  match e with None => true | Some _ => false end.

Definition handler_step (env : Env) (topic : pubsub.Topic)
    (d : nat) (msg : pubsub.Message) (err : error) (l : pc)
  : error * option pc * list Event :=
  match l with
  | AtPublish =>
      let r := env_Get env d topic msg in
      (r, Some AtTest, [EvPublish d topic msg r])
  | AtTest =>
      (err, Some (if is_nil err then AtAck else AtErrorf), [])
  | AtAck =>
      (err, None, [EvAck d])
  | AtErrorf =>
      (err, Some AtNack,
       [EvLog logrus.ErrorLevel [] ("err when inserting data: " ++ fmt_v err)])
  | AtNack =>
      (err, None, [EvNack d])
  end.

Definition handler (env : Env) (topic : pubsub.Topic)
  : pubsub.Callback (S := error) (L := pc) (E := Event) :=
  {| pubsub.cb_entry := AtPublish;
     pubsub.cb_step := handler_step env topic;
     pubsub.cb_fuel := 4 |}.

(** [sub.Receive(ctx, f)] with the callback [f] and the value [err] has when
    the call is made.  The call returns what the environment says; what the
    library promises of it for the context of [Run] is [Receive_Background],
    a hypothesis of the statements about the end of [Receive]. *)
Definition Receive (env : Env) (sub : pubsub.Subscription)
    (f : pubsub.Callback (S := error) (L := pc) (E := Event)) (err : error)
  : M error := fun w =>
  let p := pubsub.run f (pubsub.sub_ReceiveSettings sub) (env_schedule env)
             {| pubsub.shared := err; pubsub.invocations := [];
                pubsub.trace := [] |} in
  (Ret (env_Receive env),
   {| logger := logger w;
      events := events w ++ EvReceive sub :: pubsub.trace p |}).

(** ** package cmd: [RootCmd.Run] *)

Definition Run (env : Env) (cfgFile : string) (cfg : Config) : M unit :=
  SetLogger (LogLevel cfg) (LogFormat cfg) ;;
  logrus_Debug
    [ (paramConfig, cfgFile);
      (paramLogLevel, LogLevel cfg);
      (paramLogFormat, LogFormat cfg);
      (paramFromGoogleCloudProject, FromGoogleCloudProject cfg);
      (paramToGoogleCloudProject, ToGoogleCloudProject cfg);
      (paramFromGoogleApplicationCredentials, FromGoogleApplicationCredentials cfg);
      (paramToGoogleApplicationCredentials, ToGoogleApplicationCredentials cfg);
      (paramPubSubSubscription, PubSubSubscription cfg);
      (paramPubSubDestinationTopic, PubSubDestinationTopic cfg) ]
    "Configuration" ;;
  when (String.eqb (FromGoogleCloudProject cfg) EmptyString)
    (Fprintf_Stderr ("FROM_GOOGLE_CLOUD_PROJECT variable must be set." ++ nl) ;;
     os_Exit 1) ;;
  when (String.eqb (ToGoogleCloudProject cfg) EmptyString)
    (Fprintf_Stderr ("TO_GOOGLE_CLOUD_PROJECT variable must be set." ++ nl) ;;
     os_Exit 1) ;;
  when (String.eqb (PubSubSubscription cfg) EmptyString)
    (Fprintf_Stderr ("PUBSUB_SUBSCRIPTION variable must be set." ++ nl) ;;
     os_Exit 1) ;;
  when (String.eqb (PubSubDestinationTopic cfg) EmptyString)
    (Fprintf_Stderr ("PUBSUB_DESTINATION_TOPIC variable must be set." ++ nl) ;;
     os_Exit 1) ;;
  '(fromCreds, err) ←
    CredentialsFromJSON env (FromGoogleApplicationCredentials cfg) pubsub.ScopePubSub;
  '(toCreds, err) ←
    CredentialsFromJSON env (ToGoogleApplicationCredentials cfg) pubsub.ScopePubSub;
  when (negb (is_nil err))
    (logrus_Fatalf ("Could not find credentials: " ++ fmt_v err) ;;
     os_Exit 1) ;;
  '(fromClient, err) ← NewClient env (FromGoogleCloudProject cfg) fromCreds;
  '(toClient, err) ← NewClient env (ToGoogleCloudProject cfg) toCreds;
  when (negb (is_nil err))
    (logrus_Fatalf ("Could not create pubsub Client: " ++ fmt_v err) ;;
     os_Exit 1) ;;
  c ← deref fromClient;
  let sub := pubsub.NewSubscription c (PubSubSubscription cfg) in
  let sub := pubsub.set_MaxOutstandingMessages pubSubMaxOutstandingMessages sub in
  c ← deref toClient;
  let topic := pubsub.NewTopic c (PubSubDestinationTopic cfg) in
  err ← Receive env sub (handler env topic) err;
  when (negb (is_nil err)) (logrus_Fatalf (fmt_v err)).

(** ** package cmd: flags and configuration *)

(** [configureFlag]: the flag is added to the persistent flags of [RootCmd]
    and bound to viper under the same name. *)
Definition configureFlag (flagName defaultValue : string)
    (st : gmap string pflag.Flag * viper.Viper)
  : gmap string pflag.Flag * viper.Viper :=
  (pflag.String flagName defaultValue st.1, viper.BindPFlag flagName st.2).

(** [init]: the [config] flag is declared with [StringVar] and is not given
    to [BindPFlag]; the eight others go through [configureFlag]. *)
Definition init : gmap string pflag.Flag * viper.Viper :=
  let st := (pflag.String paramConfig EmptyString ∅, viper.New) in
  let st := configureFlag paramLogFormat defaultLogFormat st in
  let st := configureFlag paramLogLevel defaultLogLevel st in
  let st := configureFlag paramFromGoogleCloudProject EmptyString st in
  let st := configureFlag paramToGoogleCloudProject EmptyString st in
  let st := configureFlag paramFromGoogleApplicationCredentials EmptyString st in
  let st := configureFlag paramToGoogleApplicationCredentials EmptyString st in
  let st := configureFlag paramPubSubSubscription EmptyString st in
  configureFlag paramPubSubDestinationTopic EmptyString st.

(** [initConfig]: fills the package variable [cfg], which [Run] reads. *)
Definition initConfig (os : OS) (flags : gmap string pflag.Flag)
    (v : viper.Viper) : M Config :=
  let v := viper.SetEnvKeyReplacer "-" "_" v in
  let v := viper.AutomaticEnv v in
  let v := viper.SetConfigFile (viper.GetString os flags v paramConfig) v in
  let '(v, err) := viper.ReadInConfig os v in
  when (is_nil err)
    (logrus_Infof ("Using config file: " ++ viper.ConfigFileUsed v)) ;;
  mret {| LogFormat := viper.GetString os flags v paramLogFormat;
          LogLevel := viper.GetString os flags v paramLogLevel;
          FromGoogleCloudProject :=
            viper.GetString os flags v paramFromGoogleCloudProject;
          ToGoogleCloudProject :=
            viper.GetString os flags v paramToGoogleCloudProject;
          FromGoogleApplicationCredentials :=
            viper.GetString os flags v paramFromGoogleApplicationCredentials;
          ToGoogleApplicationCredentials :=
            viper.GetString os flags v paramToGoogleApplicationCredentials;
          PubSubSubscription := viper.GetString os flags v paramPubSubSubscription;
          PubSubDestinationTopic :=
            viper.GetString os flags v paramPubSubDestinationTopic |}.

(** [Execute]: cobra parses the command line into the flags, runs the
    initializers ([initConfig]) and then [Run]; a command line it cannot
    parse is the error [RootCmd.Execute] returns.  The command line is the
    list of the flags it sets, each with its value, which is the form
    [--name=value]; the other forms of a command line, and the [help] flag
    that cobra adds to every command, are not part of the model.  The events
    are the calls the code of the program makes: what cobra itself prints
    when it returns an error (the error and the usage of the command) is not
    among them, and the statements below are about command lines that are
    parsed. *)
Definition Execute (env : Env) (args : list (string * string)) : M unit :=
  let '(flags, v) := init in
  let '(flags, err) := pflag.Parse args flags in
  match err with
  | Some e =>
      emit (EvLog logrus.ErrorLevel [] e) ;;
      os_Exit (-1)
  | None =>
      cfg ← initConfig (env_os env) flags v;
      let cfgFile := default EmptyString (pflag.Value <$> flags !! paramConfig) in
      Run env cfgFile cfg
  end.

(** ** Vocabulary of the statements *)

(** The pool [Receive] starts from: no call yet, [err] as [Run] left it. *)
Definition pool0 (err : error)
  : pubsub.Pool (S := error) (L := pc) (E := Event) :=
  {| pubsub.shared := err; pubsub.invocations := []; pubsub.trace := [] |}.

(** The events of delivery [d] on the two brokers: its publish on the
    destination, its ack and its nack on the source. *)
Definition of_delivery (d : nat) (e : Event) : bool :=
  match e with
  | EvPublish d' _ _ _ | EvAck d' | EvNack d' => Nat.eqb d d'
  | _ => false
  end.

Definition is_publish (d : nat) (e : Event) : bool :=
  match e with EvPublish d' _ _ _ => Nat.eqb d d' | _ => false end.

Definition is_ack (d : nat) (e : Event) : bool :=
  match e with EvAck d' => Nat.eqb d d' | _ => false end.

Definition is_nack (d : nat) (e : Event) : bool :=
  match e with EvNack d' => Nat.eqb d d' | _ => false end.

Definition is_Receive (e : Event) : bool :=
  match e with EvReceive _ => true | _ => false end.

Definition is_NewClient (e : Event) : bool :=
  match e with EvNewClient _ _ => true | _ => false end.

Definition is_Stderr (e : Event) : bool :=
  match e with EvStderr _ => true | _ => false end.

#[export] Instance Level_eq_dec : EqDecision logrus.Level.
Proof. solve_decision. Defined.

Definition is_Log (lvl : logrus.Level) (e : Event) : bool :=
  match e with EvLog l _ _ => bool_decide (l = lvl) | _ => false end.

Definition count (f : Event -> bool) (tr : list Event) : nat :=
  length (List.filter f tr).

(** What [SetLogger] logs for the level name [ll]. *)
Definition SetLogger_log (ll : string) : list Event :=
  match (logrus.ParseLevel ll).2 with
  | Some e =>
      [EvLog logrus.ErrorLevel []
         ("log level is not ok, setting to info by default : " ++ e)]
  | None => []
  end.

(** The first entry of [Run], with the configuration in its fields. *)
Definition Configuration_log (cfgFile : string) (cfg : Config) : Event :=
  EvLog logrus.DebugLevel
    [ (paramConfig, cfgFile);
      (paramLogLevel, LogLevel cfg);
      (paramLogFormat, LogFormat cfg);
      (paramFromGoogleCloudProject, FromGoogleCloudProject cfg);
      (paramToGoogleCloudProject, ToGoogleCloudProject cfg);
      (paramFromGoogleApplicationCredentials, FromGoogleApplicationCredentials cfg);
      (paramToGoogleApplicationCredentials, ToGoogleApplicationCredentials cfg);
      (paramPubSubSubscription, PubSubSubscription cfg);
      (paramPubSubDestinationTopic, PubSubDestinationTopic cfg) ]
    "Configuration".

Definition is_empty (s : string) : bool := String.eqb s EmptyString.

(** The fields [Run] tests for emptiness, and the six the specification
    calls required. *)
Definition checked_field_empty (cfg : Config) : bool :=
  is_empty (FromGoogleCloudProject cfg) || is_empty (ToGoogleCloudProject cfg)
  || is_empty (PubSubSubscription cfg) || is_empty (PubSubDestinationTopic cfg).

Definition required_field_empty (cfg : Config) : bool :=
  checked_field_empty cfg
  || is_empty (FromGoogleApplicationCredentials cfg)
  || is_empty (ToGoogleApplicationCredentials cfg).

(** The process ended with a non-zero status: [os.Exit] with one, or a
    panic (status 2).  A command that returns has not ended the process:
    [Execute] returns in its turn. *)
Definition exits_nonzero {A} (r : Result A) : bool :=
  match r with
  | Exited c => negb (c =? 0)%Z
  | Panicked _ => true
  | Ret _ => false
  end.

(** The value the command line gives to flag [k]: the last one. *)
Fixpoint given (args : list (string * string)) (k : string) : option string :=
  match args with
  | [] => None
  | (name, value) :: args' =>
      match given args' k with
      | Some v => Some v
      | None => if String.eqb name k then Some value else None
      end
  end.

(** The name of the environment variable of parameter [k]. *)
Definition env_name (k : string) : string := Replace "-" "_" (ToUpper k).

(** The value the environment gives to parameter [k]. *)
Definition from_env (os : OS) (k : string) : option string :=
  match environ os !! env_name k with
  | Some val => if String.eqb val EmptyString then None else Some val
  | None => None
  end.

(** The settings of the configuration file [initConfig] reads: the file
    named by the environment variable [CONFIG], when there is one. *)
Definition from_file (os : OS) : gmap string string :=
  match from_env os paramConfig with
  | Some path => default ∅ (files os !! path)
  | None => ∅
  end.

(** The formatter and the level [SetLogger] leaves in the logger. *)
Definition SetLogger_formatter (lf : string) : logrus.Formatter :=
  if String.eqb lf "json" then logrus.JSONFormatter "severity" "message"
  else logrus.TextFormatter true true true true.

Definition SetLogger_level (ll : string) : logrus.Level :=
  match logrus.ParseLevel ll with
  | (l, None) => l
  | (_, Some _) => logrus.InfoLevel
  end.

(** The events a command adds to those of the state it starts in. *)
Definition new_events (w : World) (res : Result unit * World) : list Event :=
  drop (length (events w)) (events res.2).

(** The process stopped with a message on stderr before it built a client
    or entered the receive loop. *)
Definition stops_before_clients (w : World) (res : Result unit * World) : bool :=
  exits_nonzero res.1
  && existsb is_Stderr (new_events w res)
  && negb (existsb is_NewClient (new_events w res))
  && negb (existsb is_Receive (new_events w res)).

(** The process logged an error at fatal level and stopped, without
    entering the receive loop. *)
Definition fails_before_Receive (w : World) (res : Result unit * World) : bool :=
  exits_nonzero res.1
  && existsb (is_Log logrus.FatalLevel) (new_events w res)
  && negb (existsb is_Receive (new_events w res)).

(** What [Run] does once [Receive] has returned [recv]. *)
Definition after_Receive (recv : error) : list Event * Result unit :=
  match recv with
  | Some e => ([EvLog logrus.FatalLevel [] e], Exited 1)
  | None => ([], Ret tt)
  end.

(** What the library promises of [Receive] for the context [Run] passes.
    [Run] calls [sub.Receive] with [context.Background()] (line 76), a context
    that is never done.  The library returns [nil] only once its context is
    done; with this one, [Receive] comes back only when the subscription
    fails, and then with the error: a non-nil one. *)
Definition Receive_Background (env : Env) : Prop :=
  is_nil (env_Receive env) = false.

(** The message [Run] writes on stderr for the first of the fields it tests
    that is empty. *)
Definition must_be_set (cfg : Config) : string :=
  (if is_empty (FromGoogleCloudProject cfg) then "FROM_GOOGLE_CLOUD_PROJECT"
   else if is_empty (ToGoogleCloudProject cfg) then "TO_GOOGLE_CLOUD_PROJECT"
   else if is_empty (PubSubSubscription cfg) then "PUBSUB_SUBSCRIPTION"
   else "PUBSUB_DESTINATION_TOPIC")
  ++ " variable must be set." ++ nl.

(** The logger [Run] works with, once [SetLogger] has returned. *)
Definition Run_logger (cfg : Config) : logrus.Logger :=
  {| logrus.formatter := SetLogger_formatter (LogFormat cfg);
     logrus.level := SetLogger_level (LogLevel cfg) |}.

(** A flag after the command line has been parsed: it holds the value the
    command line gives it, if it gives one. *)
Definition parsed_flag (f : pflag.Flag) (g : option string) : pflag.Flag :=
  match g with
  | Some v => {| pflag.DefValue := pflag.DefValue f; pflag.Value := v;
                 pflag.Changed := true |}
  | None => f
  end.

(** Viper as [initConfig] leaves it when it reads the parameters: the flags
    bound by [init], the environment consulted under the names with
    underscores, and the settings of the configuration file. *)
Definition viper_ready (os : OS) (v : viper.Viper) : Prop :=
  viper.pflags v = viper.pflags init.2
  /\ viper.envKeyReplacer v = Some ("-"%char, "_"%char)
  /\ viper.automaticEnvApplied v = true
  /\ viper.config v = from_file os.

(** At most one call of the callback is running. *)
Definition serial (p : pubsub.Pool (S := error) (L := pc) (E := Event)) : Prop :=
  forall d d' i i',
    pubsub.invocations p !! d = Some i -> pubsub.invocations p !! d' = Some i' ->
    pubsub.running i = true -> pubsub.running i' = true -> d = d'.

(** The entry the callback logs for the error [r]. *)
Definition inserting_error (r : error) : Event :=
  EvLog logrus.ErrorLevel [] ("err when inserting data: " ++ fmt_v r).

(** Every call goes by the result [r] of its own publish: what it reads in
    [err] is [r], it is on the ack branch only if [r] is nil, on the nack
    branch only if it is not and then it logs [r], and once it has returned
    it has acked if and only if [r] is nil. *)
Definition own_result (env : Env) (topic : pubsub.Topic)
    (p : pubsub.Pool (S := error) (L := pc) (E := Event)) : Prop :=
  forall d i, pubsub.invocations p !! d = Some i ->
    let r := env_Get env d topic (pubsub.inv_msg i) in
    match pubsub.inv_at i with
    | Some AtPublish => True
    | Some AtTest => pubsub.shared p = r
    | Some AtAck => is_nil r = true
    | Some AtErrorf => pubsub.shared p = r /\ is_nil r = false
    | Some AtNack => is_nil r = false /\ In (inserting_error r) (pubsub.trace p)
    | None =>
        existsb (is_ack d) (pubsub.trace p) = is_nil r
        /\ (is_nil r = false -> In (inserting_error r) (pubsub.trace p))
    end.

(** What the brokers have seen of delivery [d] once the events [tr] have
    happened, by the state [i] of its call: nothing before the publish, the
    publish of the message of the call while it runs, and after it has
    returned the publish followed by one ack or one nack. *)
Definition delivery_events (env : Env) (topic : pubsub.Topic)
    (tr : list Event) (d : nat)
    (i : option (pubsub.Invocation (L := pc))) : Prop :=
  let evs := List.filter (of_delivery d) tr in
  match i with
  | None => evs = []
  | Some {| pubsub.inv_msg := m; pubsub.inv_at := l |} =>
      let pub := EvPublish d topic m (env_Get env d topic m) in
      match l with
      | Some AtPublish => evs = []
      | Some _ => evs = [pub]
      | None => evs = [pub; EvAck d] \/ evs = [pub; EvNack d]
      end
  end.

Definition handler_inv (env : Env) (topic : pubsub.Topic)
    (p : pubsub.Pool (S := error) (L := pc) (E := Event)) : Prop :=
  forall d, delivery_events env topic (pubsub.trace p) d (pubsub.invocations p !! d).

(** The steps a call of the callback has left, at most. *)
Definition steps_left (l : option pc) : nat :=
  match l with
  | Some AtPublish => 4
  | Some AtTest => 3
  | Some AtErrorf => 2
  | Some AtAck | Some AtNack => 1
  | None => 0
  end.

Definition remaining (p : pubsub.Pool (S := error) (L := pc) (E := Event))
    (d : nat) : nat :=
  match pubsub.invocations p !! d with
  | Some i => steps_left (pubsub.inv_at i)
  | None => 0
  end.

(** ** Vocabulary of the further statements *)

Definition is_CredentialsFromJSON (e : Event) : bool :=
  match e with EvCredentialsFromJSON _ _ => true | _ => false end.

(** A publish, of whichever delivery. *)
Definition is_some_publish (e : Event) : bool :=
  match e with EvPublish _ _ _ _ => true | _ => false end.

(** A nack, of whichever delivery. *)
Definition is_some_nack (e : Event) : bool :=
  match e with EvNack _ => true | _ => false end.

(** The call is between its [Errorf] and its [Nack]. *)
Definition at_nack (i : pubsub.Invocation (L := pc)) : bool :=
  match pubsub.inv_at i with Some AtNack => true | _ => false end.

(** The parameters [Run] tests for emptiness, in the order of the tests. *)
Definition checked_params : list string :=
  [ paramFromGoogleCloudProject; paramToGoogleCloudProject;
    paramPubSubSubscription; paramPubSubDestinationTopic ].

(** The events of [Run] up to the credentials, and up to the clients. *)
Definition Run_prologue (cfgFile : string) (cfg : Config) : list Event :=
  (SetLogger_log (LogLevel cfg) ++ [Configuration_log cfgFile cfg])%list.

Definition Run_credentials (cfg : Config) : list Event :=
  [ EvCredentialsFromJSON (FromGoogleApplicationCredentials cfg) pubsub.ScopePubSub;
    EvCredentialsFromJSON (ToGoogleApplicationCredentials cfg) pubsub.ScopePubSub ].

Definition Run_clients (cfg : Config)
    (fromCreds toCreds : option google.Credentials) : list Event :=
  [ EvNewClient (FromGoogleCloudProject cfg) fromCreds;
    EvNewClient (ToGoogleCloudProject cfg) toCreds ].

Definition nil_dereference : string :=
  "invalid memory address or nil pointer dereference".

(** The subscription and the topic [Run] works with, from the clients. *)
Definition Run_subscription (cfg : Config) (c : pubsub.Client) : pubsub.Subscription :=
  pubsub.set_MaxOutstandingMessages pubSubMaxOutstandingMessages
    (pubsub.NewSubscription c (PubSubSubscription cfg)).

Definition Run_topic (cfg : Config) (c : pubsub.Client) : pubsub.Topic :=
  pubsub.NewTopic c (PubSubDestinationTopic cfg).

(** The events of the receive loop of [Run]. *)
Definition Run_loop (env : Env) (cfg : Config) (c_from c_to : pubsub.Client)
  : list Event :=
  pubsub.trace
    (pubsub.run (handler env (Run_topic cfg c_to))
       (pubsub.sub_ReceiveSettings (Run_subscription cfg c_from))
       (env_schedule env) (pool0 None)).

(** [Run] path by path: the result and the events it adds, read off the
    order of its statements.  [Run_paths] proves it equal to [Run]. *)
Definition Run_outcome (env : Env) (cfgFile : string) (cfg : Config)
  : Result unit * list Event :=
  let pre := Run_prologue cfgFile cfg in
  if checked_field_empty cfg then (Exited 1, (pre ++ [EvStderr (must_be_set cfg)])%list)
  else
    let '(fromCreds, _) :=
      env_CredentialsFromJSON env (FromGoogleApplicationCredentials cfg)
        pubsub.ScopePubSub in
    let '(toCreds, err) :=
      env_CredentialsFromJSON env (ToGoogleApplicationCredentials cfg)
        pubsub.ScopePubSub in
    let pre := (pre ++ Run_credentials cfg)%list in
    match err with
    | Some e =>
        (Exited 1,
         (pre ++ [EvLog logrus.FatalLevel []
                    ("Could not find credentials: " ++ e)%string])%list)
    | None =>
        let '(fromClient, _) :=
          env_NewClient env (FromGoogleCloudProject cfg) fromCreds in
        let '(toClient, err) :=
          env_NewClient env (ToGoogleCloudProject cfg) toCreds in
        let pre := (pre ++ Run_clients cfg fromCreds toCreds)%list in
        match err with
        | Some e =>
            (Exited 1,
             (pre ++ [EvLog logrus.FatalLevel []
                        ("Could not create pubsub Client: " ++ e)%string])%list)
        | None =>
            match fromClient, toClient with
            | Some c_from, Some c_to =>
                ((after_Receive (env_Receive env)).2,
                 (pre ++ EvReceive (Run_subscription cfg c_from)
                    :: Run_loop env cfg c_from c_to
                    ++ (after_Receive (env_Receive env)).1)%list)
            | _, _ => (Panicked nil_dereference, pre)
            end
        end
    end.

(** ** Sample inputs

    The two messages of the scenarios of the specification, a destination on
    which the publish of message 2 fails with [unavailable], and credential
    documents that parse when they open with a brace. *)

Definition msg1 : pubsub.Message :=
  {| pubsub.ID := "1"; pubsub.Data := "x"; pubsub.Attributes := ∅ |}.

Definition msg2 : pubsub.Message :=
  {| pubsub.ID := "2"; pubsub.Data := "y";
     pubsub.Attributes := {[ "origin" := "eu" ]} |}.

Definition sample_CredentialsFromJSON (json scope : string)
  : option google.Credentials * error :=
  if String.eqb json EmptyString then (None, Some "unexpected end of JSON input")
  else if String.prefix "{" json
       then (Some {| google.JSON := json; google.scope := scope |}, None)
       else (None, Some "invalid character looking for beginning of value").

Definition sample_NewClient (project : string)
    (creds : option google.Credentials) : option pubsub.Client * error :=
  (Some {| pubsub.projectID := project; pubsub.credentials := creds |}, None).

Definition sample_Get (d : nat) (t : pubsub.Topic) (m : pubsub.Message) : error :=
  if String.eqb (pubsub.ID m) "2" then Some "unavailable" else None.

Definition sample_env (sched : list pubsub.Action) (recv : error) : Env :=
  {| env_os := {| environ := ∅; files := ∅ |};
     env_CredentialsFromJSON := sample_CredentialsFromJSON;
     env_NewClient := sample_NewClient;
     env_Get := sample_Get;
     env_schedule := sched;
     env_Receive := recv |}.

Definition sample_cfg : Config :=
  {| LogFormat := "json"; LogLevel := "debug";
     FromGoogleCloudProject := "src-project";
     ToGoogleCloudProject := "dst-project";
     FromGoogleApplicationCredentials := "{src}";
     ToGoogleApplicationCredentials := "{dst}";
     PubSubSubscription := "orders-sub";
     PubSubDestinationTopic := "orders-copy" |}.

Definition sample_topic : pubsub.Topic :=
  pubsub.NewTopic
    {| pubsub.projectID := "dst-project";
       pubsub.credentials :=
         Some {| google.JSON := "{dst}"; google.scope := pubsub.ScopePubSub |} |}
    "orders-copy".

(** The settings [Run] gives to the subscription. *)
Definition sample_rs : pubsub.ReceiveSettings :=
  {| pubsub.MaxOutstandingMessages := pubSubMaxOutstandingMessages |}.

(** Settings that let one message through at a time. *)
Definition one_at_a_time : pubsub.ReceiveSettings :=
  {| pubsub.MaxOutstandingMessages := 1 |}.

(** Two deliveries whose callbacks overlap: both publish before the first
    one tests [err]. *)
Definition overlap (first second : pubsub.Message) : list pubsub.Action :=
  [ pubsub.Deliver first; pubsub.Deliver second;
    pubsub.Step 0; pubsub.Step 1; pubsub.Step 0 ].

(** The same configuration with a source credential document that is not
    one, and with none at all. *)
Definition cfg_bad_source_credentials : Config :=
  {| LogFormat := "json"; LogLevel := "debug";
     FromGoogleCloudProject := "src-project";
     ToGoogleCloudProject := "dst-project";
     FromGoogleApplicationCredentials := "not json";
     ToGoogleApplicationCredentials := "{dst}";
     PubSubSubscription := "orders-sub";
     PubSubDestinationTopic := "orders-copy" |}.

Definition cfg_no_source_credentials : Config :=
  {| LogFormat := "json"; LogLevel := "debug";
     FromGoogleCloudProject := "src-project";
     ToGoogleCloudProject := "dst-project";
     FromGoogleApplicationCredentials := EmptyString;
     ToGoogleApplicationCredentials := "{dst}";
     PubSubSubscription := "orders-sub";
     PubSubDestinationTopic := "orders-copy" |}.

Definition cfg_no_subscription : Config :=
  {| LogFormat := "text"; LogLevel := "verbose";
     FromGoogleCloudProject := "src-project";
     ToGoogleCloudProject := "dst-project";
     FromGoogleApplicationCredentials := "{src}";
     ToGoogleApplicationCredentials := "{dst}";
     PubSubSubscription := EmptyString;
     PubSubDestinationTopic := "orders-copy" |}.

(** A machine without default credentials: a client cannot be built from
    nil credentials. *)
Definition strict_NewClient (project : string)
    (creds : option google.Credentials) : option pubsub.Client * error :=
  match creds with
  | Some _ => sample_NewClient project creds
  | None => (None, Some "could not find default credentials")
  end.

Definition strict_env (sched : list pubsub.Action) (recv : error) : Env :=
  {| env_os := {| environ := ∅; files := ∅ |};
     env_CredentialsFromJSON := sample_CredentialsFromJSON;
     env_NewClient := strict_NewClient;
     env_Get := sample_Get;
     env_schedule := sched;
     env_Receive := recv |}.

Definition sample_subscription : pubsub.Subscription :=
  pubsub.set_MaxOutstandingMessages pubSubMaxOutstandingMessages
    (pubsub.NewSubscription
       {| pubsub.projectID := "src-project";
          pubsub.credentials :=
            Some {| google.JSON := "{src}"; google.scope := pubsub.ScopePubSub |} |}
       "orders-sub").

(** A command line, an environment and a configuration file that disagree. *)
Definition sample_args : list (string * string) :=
  [ (paramLogLevel, "error"); (paramConfig, "/home/relay/other.yaml") ].

Definition sample_os : OS :=
  {| environ := {[ "CONFIG" := "/etc/relay.yaml";
                   "PUBSUB_SUBSCRIPTION" := "orders-sub-from-env" ]};
     files :=
       {[ "/etc/relay.yaml" :=
            ({[ paramLogLevel := "warn";
                paramPubSubSubscription := "orders-sub-from-file";
                paramToGoogleCloudProject := "dst-project-from-file" ]}
             : gmap string string);
          "/home/relay/other.yaml" :=
            ({[ paramLogFormat := "text" ]} : gmap string string) ]} |}.

Definition sample_flags : gmap string pflag.Flag :=
  (pflag.Parse sample_args init.1).1.

(** A destination credential document that is not one, and a destination
    project for which no client can be built. *)
Definition cfg_bad_destination_credentials : Config :=
  {| LogFormat := "json"; LogLevel := "debug";
     FromGoogleCloudProject := "src-project";
     ToGoogleCloudProject := "dst-project";
     FromGoogleApplicationCredentials := "{src}";
     ToGoogleApplicationCredentials := "not json";
     PubSubSubscription := "orders-sub";
     PubSubDestinationTopic := "orders-copy" |}.

Definition unreachable_NewClient (project : string)
    (creds : option google.Credentials) : option pubsub.Client * error :=
  if String.eqb project "dst-project"
  then (None, Some "dial: connection refused")
  else sample_NewClient project creds.

Definition env_no_destination_client : Env :=
  {| env_os := {| environ := ∅; files := ∅ |};
     env_CredentialsFromJSON := sample_CredentialsFromJSON;
     env_NewClient := unreachable_NewClient;
     env_Get := sample_Get;
     env_schedule := [];
     env_Receive := None |}.

Definition src_credentials : google.Credentials :=
  {| google.JSON := "{src}"; google.scope := pubsub.ScopePubSub |}.

Definition dst_credentials : google.Credentials :=
  {| google.JSON := "{dst}"; google.scope := pubsub.ScopePubSub |}.

Definition src_client : pubsub.Client :=
  {| pubsub.projectID := "src-project"; pubsub.credentials := Some src_credentials |}.

Definition dst_client : pubsub.Client :=
  {| pubsub.projectID := "dst-project"; pubsub.credentials := Some dst_credentials |}.

(** The sample command line without its [config] flag. *)
Definition sample_args_no_config : list (string * string) :=
  [ (paramLogLevel, "error") ].

Definition sample_flags_no_config : gmap string pflag.Flag :=
  (pflag.Parse sample_args_no_config init.1).1.

(** A configuration file that only the command line names: the environment
    is empty, and the file sets the log format. *)
Definition args_config_flag : list (string * string) :=
  [ (paramConfig, "/home/relay/other.yaml") ].

Definition flags_config_flag : gmap string pflag.Flag :=
  (pflag.Parse args_config_flag init.1).1.

Definition os_config_flag : OS :=
  {| environ := ∅;
     files :=
       {[ "/home/relay/other.yaml" :=
            ({[ paramLogFormat := "text" ]} : gmap string string) ]} |}.

(** The same file, named by the environment. *)
Definition os_config_environment : OS :=
  {| environ := {[ "CONFIG" := "/home/relay/other.yaml" ]};
     files := files os_config_flag |}.

(** An environment that sets everything but the subscription. *)
Definition os_no_subscription : OS :=
  {| environ := {[ "FROM_GOOGLE_CLOUD_PROJECT" := "src-project";
                   "TO_GOOGLE_CLOUD_PROJECT" := "dst-project";
                   "PUBSUB_DESTINATION_TOPIC" := "orders-copy" ]};
     files := ∅ |}.

Definition env_no_subscription : Env :=
  {| env_os := os_no_subscription;
     env_CredentialsFromJSON := sample_CredentialsFromJSON;
     env_NewClient := sample_NewClient;
     env_Get := sample_Get;
     env_schedule := [];
     env_Receive := None |}.

(** * Theorems *)

(** ** The scheduler of [Receive] *)

Section ReceiveFacts.

Context {S L E : Type}.
Implicit Types (cb : pubsub.Callback (S := S) (L := L) (E := E)).
Implicit Types (p : pubsub.Pool (S := S) (L := L) (E := E)).

Lemma exec_nil cb rs p : pubsub.exec cb rs [] p = p.
Proof. reflexivity. Qed.

Lemma exec_cons cb rs a sched p :
  pubsub.exec cb rs (a :: sched) p
  = pubsub.exec cb rs sched (pubsub.step cb rs a p).
Proof. reflexivity. Qed.

Lemma exec_app cb rs s1 s2 p :
  pubsub.exec cb rs (s1 ++ s2) p
  = pubsub.exec cb rs s2 (pubsub.exec cb rs s1 p).
Proof. unfold pubsub.exec. apply foldl_app. Qed.

(** A property that every action preserves holds all along an execution. *)
Lemma exec_invariant cb rs (P : pubsub.Pool -> Prop) :
  (forall a p, P p -> P (pubsub.step cb rs a p)) ->
  forall sched p, P p -> P (pubsub.exec cb rs sched p).
Proof.
  intros Hstep sched. induction sched as [|a sched IH]; intros p Hp.
  - exact Hp.
  - rewrite exec_cons. apply IH, Hstep, Hp.
Qed.

Lemma run_invariant cb rs (P : pubsub.Pool -> Prop) :
  (forall a p, P p -> P (pubsub.step cb rs a p)) ->
  forall sched p, P p -> P (pubsub.run cb rs sched p).
Proof.
  intros Hstep sched p Hp. unfold pubsub.run.
  do 2 (apply exec_invariant; [exact Hstep|]). exact Hp.
Qed.

(** The step of a call that is not in the pool, or has returned, is no
    step. *)
Lemma step_idle cb rs d p :
  (forall i, pubsub.invocations p !! d = Some i -> pubsub.inv_at i = None) ->
  pubsub.step cb rs (pubsub.Step d) p = p.
Proof.
  intros H. cbn. destruct (pubsub.invocations p !! d) as [[m [l|]]|] eqn:Hd;
    try reflexivity.
  specialize (H _ eq_refl). discriminate.
Qed.

Lemma outstanding_app p i :
  length (filter (fun i => pubsub.running i = true)
            (pubsub.invocations p ++ [i])%list)
  = (pubsub.outstanding p + if pubsub.running i then 1 else 0)%nat.
Proof.
  unfold pubsub.outstanding. rewrite filter_app, length_app.
  f_equal. rewrite filter_cons, filter_nil.
  destruct (pubsub.running i); case_decide; try done.
Qed.

(** Replacing a running call by its next state does not raise the number
    of running calls. *)
Lemma outstanding_insert (l : list (pubsub.Invocation (L := L))) d i i' :
  l !! d = Some i -> pubsub.running i = true ->
  (length (filter (fun i => pubsub.running i = true) (<[d := i']> l))
   <= length (filter (fun i => pubsub.running i = true) l))%nat.
Proof.
  intros Hd Hrun.
  rewrite <- (take_drop_middle l d i Hd) at 2.
  rewrite insert_take_drop by (eapply lookup_lt_Some; exact Hd).
  rewrite !filter_app, !length_app, !filter_cons.
  rewrite (decide_True (P := pubsub.running i = true)) by exact Hrun.
  case_decide; cbn; lia.
Qed.

(** Flow control: with a limit [n], a pool that holds at most [n] running
    calls holds at most [n] after any action. *)
Lemma step_outstanding cb rs n a p :
  pubsub.limit rs = Some n ->
  (Z.of_nat (pubsub.outstanding p) <= n)%Z ->
  (Z.of_nat (pubsub.outstanding (pubsub.step cb rs a p)) <= n)%Z.
Proof.
  intros Hn Hp. destruct a as [m|d]; cbn.
  - unfold pubsub.has_room. rewrite Hn.
    destruct (Z.ltb_spec (Z.of_nat (pubsub.outstanding p)) n) as [Hlt|Hge];
      [|exact Hp].
    unfold pubsub.outstanding at 1. cbn. rewrite outstanding_app. cbn. lia.
  - destruct (pubsub.invocations p !! d) as [[m [l|]]|] eqn:Hd; try exact Hp.
    destruct (pubsub.cb_step cb d m (pubsub.shared p) l) as [[s' l'] evs].
    unfold pubsub.outstanding at 1. cbn.
    pose proof (outstanding_insert (pubsub.invocations p) d _
                  {| pubsub.inv_msg := m; pubsub.inv_at := l' |} Hd eq_refl).
    unfold pubsub.outstanding in Hp. lia.
Qed.

Lemma exec_outstanding cb rs n sched p :
  pubsub.limit rs = Some n ->
  (Z.of_nat (pubsub.outstanding p) <= n)%Z ->
  (Z.of_nat (pubsub.outstanding (pubsub.exec cb rs sched p)) <= n)%Z.
Proof.
  intros Hn. apply (exec_invariant cb rs
    (fun p => (Z.of_nat (pubsub.outstanding p) <= n)%Z)).
  intros a q. apply step_outstanding, Hn.
Qed.

End ReceiveFacts.

(** ** The receive callback *)

Section HandlerFacts.

Context (env : Env) (topic : pubsub.Topic) (rs : pubsub.ReceiveSettings).

Let h := handler env topic.

Lemma filter_of_delivery_app d (tr1 tr2 : list Event) :
  List.filter (of_delivery d) (tr1 ++ tr2)
  = (List.filter (of_delivery d) tr1 ++ List.filter (of_delivery d) tr2)%list.
Proof. apply List.filter_app. Qed.

Lemma handler_inv_pool0 err : handler_inv env topic (pool0 err).
Proof. intros d. reflexivity. Qed.

(** Every action preserves the shape of what each delivery has done. *)
Lemma handler_inv_step a p :
  handler_inv env topic p -> handler_inv env topic (pubsub.step h rs a p).
Proof.
  intros Hinv d'. destruct a as [m|d]; cbn.
  - destruct (pubsub.has_room rs p); [|apply Hinv]. cbn.
    specialize (Hinv d'). rewrite lookup_app.
    destruct (pubsub.invocations p !! d') as [i|] eqn:Hd'; [exact Hinv|].
    destruct (d' - length (pubsub.invocations p))%nat as [|k]; cbn;
      exact Hinv.
  - destruct (pubsub.invocations p !! d) as [[m [l|]]|] eqn:Hd;
      try apply Hinv.
    assert (Hlt : (d < length (pubsub.invocations p))%nat)
      by (eapply lookup_lt_Some; exact Hd).
    destruct (decide (d' = d)) as [->|Hne].
    + specialize (Hinv d). rewrite Hd in Hinv.
      unfold delivery_events in *.
      destruct l; cbn in *;
        rewrite list_lookup_insert_eq by exact Hlt;
        rewrite filter_of_delivery_app; cbn; rewrite ?Nat.eqb_refl;
        rewrite Hinv; cbn; auto.
      destruct (is_nil (pubsub.shared p)); reflexivity.
    + specialize (Hinv d'). unfold delivery_events in *.
      assert (Hd'd : Nat.eqb d' d = false) by (apply Nat.eqb_neq; exact Hne).
      destruct l; cbn;
        rewrite list_lookup_insert_ne by congruence;
        rewrite filter_of_delivery_app; cbn; rewrite ?Hd'd;
        rewrite ?app_nil_r; exact Hinv.
Qed.

Lemma handler_inv_exec sched err :
  handler_inv env topic (pubsub.exec h rs sched (pool0 err)).
Proof.
  apply (exec_invariant h rs (handler_inv env topic)).
  - intros a p. apply handler_inv_step.
  - apply handler_inv_pool0.
Qed.

End HandlerFacts.

Section CallsFacts.

Context {S L E : Type}.
Context (cb : pubsub.Callback (S := S) (L := L) (E := E)).
Context (rs : pubsub.ReceiveSettings).
Implicit Types (p : pubsub.Pool (S := S) (L := L) (E := E)).

(** A call keeps its number and its message. *)
Lemma step_msg a p d i :
  pubsub.invocations p !! d = Some i ->
  exists i', pubsub.invocations (pubsub.step cb rs a p) !! d = Some i'
             /\ pubsub.inv_msg i' = pubsub.inv_msg i.
Proof.
  intros Hd. destruct a as [m|d0]; cbn.
  - destruct (pubsub.has_room rs p); cbn; [|eauto].
    exists i. split; [|reflexivity]. apply lookup_app_l_Some, Hd.
  - destruct (pubsub.invocations p !! d0) as [[m [l|]]|] eqn:Hd0; eauto.
    destruct (pubsub.cb_step cb d0 m (pubsub.shared p) l) as [[s' l'] evs].
    cbn. destruct (decide (d0 = d)) as [->|Hne].
    + eexists. split.
      * apply list_lookup_insert_eq. eapply lookup_lt_Some; exact Hd.
      * rewrite Hd in Hd0. injection Hd0 as ->. reflexivity.
    + exists i. split; [|reflexivity].
      rewrite list_lookup_insert_ne by exact Hne. exact Hd.
Qed.

Lemma exec_msg sched p d i :
  pubsub.invocations p !! d = Some i ->
  exists i', pubsub.invocations (pubsub.exec cb rs sched p) !! d = Some i'
             /\ pubsub.inv_msg i' = pubsub.inv_msg i.
Proof.
  revert p i. induction sched as [|a sched IH]; intros p i Hd.
  - exists i. split; [exact Hd|reflexivity].
  - rewrite exec_cons.
    destruct (step_msg a p d i Hd) as (i1 & Hd1 & Hm1).
    destruct (IH _ _ Hd1) as (i2 & Hd2 & Hm2).
    exists i2. split; [exact Hd2|congruence].
Qed.

(** A message delivered while there is room becomes the call with the next
    number. *)
Lemma step_Deliver_has_room m p :
  pubsub.has_room rs p = true ->
  pubsub.invocations (pubsub.step cb rs (pubsub.Deliver m) p)
    !! length (pubsub.invocations p)
  = Some {| pubsub.inv_msg := m; pubsub.inv_at := Some (pubsub.cb_entry cb) |}.
Proof.
  intros Hadm. cbn. rewrite Hadm. cbn.
  rewrite lookup_app_r by lia. rewrite Nat.sub_diag. reflexivity.
Qed.

Lemma step_Step_length d p :
  length (pubsub.invocations (pubsub.step cb rs (pubsub.Step d) p))
  = length (pubsub.invocations p).
Proof.
  cbn. destruct (pubsub.invocations p !! d) as [[m [l|]]|]; try reflexivity.
  destruct (pubsub.cb_step cb d m (pubsub.shared p) l) as [[s' l'] evs].
  cbn. apply length_insert.
Qed.

Lemma exec_Steps_length d n p :
  length (pubsub.invocations (pubsub.exec cb rs (replicate n (pubsub.Step d)) p))
  = length (pubsub.invocations p).
Proof.
  revert p. induction n as [|n IH]; intros p; [reflexivity|].
  cbn [replicate]. rewrite exec_cons, IH. apply step_Step_length.
Qed.

End CallsFacts.

Section HandlerReturns.

Context (env : Env) (topic : pubsub.Topic) (rs : pubsub.ReceiveSettings).

Let h := handler env topic.

Lemma remaining_Step_same d p :
  (remaining (pubsub.step h rs (pubsub.Step d) p) d <= pred (remaining p d))%nat.
Proof.
  unfold remaining. cbn.
  destruct (pubsub.invocations p !! d) as [[m [l|]]|] eqn:Hd;
    cbn; rewrite ?Hd; cbn; try lia.
  assert (Hlt : (d < length (pubsub.invocations p))%nat)
    by (eapply lookup_lt_Some; exact Hd).
  destruct l; cbn; rewrite list_lookup_insert_eq by exact Hlt; cbn; try lia.
  destruct (is_nil (pubsub.shared p)); cbn; lia.
Qed.

Lemma remaining_Step d' d p :
  (remaining (pubsub.step h rs (pubsub.Step d') p) d <= remaining p d)%nat.
Proof.
  destruct (decide (d' = d)) as [->|Hne].
  - pose proof (remaining_Step_same d p). lia.
  - unfold remaining. cbn.
    destruct (pubsub.invocations p !! d') as [[m [l|]]|] eqn:Hd'; try lia.
    destruct (handler_step env topic d' m (pubsub.shared p) l) as [[s' l'] evs].
    cbn. rewrite list_lookup_insert_ne by exact Hne. lia.
Qed.

Lemma remaining_Steps n d' d p :
  (remaining (pubsub.exec h rs (replicate n (pubsub.Step d')) p) d
   <= remaining p d)%nat.
Proof.
  revert p. induction n as [|n IH]; intros p; [cbn; lia|].
  cbn [replicate]. rewrite exec_cons.
  etransitivity; [apply IH|apply remaining_Step].
Qed.

Lemma remaining_Steps_same n d p :
  (remaining (pubsub.exec h rs (replicate n (pubsub.Step d)) p) d
   <= remaining p d - n)%nat.
Proof.
  revert p. induction n as [|n IH]; intros p; [cbn; lia|].
  cbn [replicate]. rewrite exec_cons.
  pose proof (IH (pubsub.step h rs (pubsub.Step d) p)).
  pose proof (remaining_Step_same d p). lia.
Qed.

Lemma remaining_le_4 d p : (remaining p d <= 4)%nat.
Proof.
  unfold remaining. destruct (pubsub.invocations p !! d) as [[m [[]|]]|];
    cbn; lia.
Qed.

(** Waiting for the calls [ds]: none of them is left running, no other
    call is started, and the pool keeps its size. *)
Lemma finish_returns ds p :
  let p' := pubsub.exec h rs (d ← ds; replicate 4 (pubsub.Step d)) p in
  (forall d, remaining p' d <= remaining p d)%nat
  /\ (forall d, d ∈ ds -> remaining p' d = 0%nat)
  /\ length (pubsub.invocations p') = length (pubsub.invocations p).
Proof.
  revert p. induction ds as [|d0 ds IH]; intros p; cbn zeta.
  - cbn. split; [lia|]. split; [|reflexivity]. intros d Hd. inversion Hd.
  - rewrite bind_cons, exec_app.
    set (p1 := pubsub.exec h rs (replicate 4 (pubsub.Step d0)) p).
    destruct (IH p1) as (Hmono & Hzero & Hlen). cbn zeta in *.
    split; [|split].
    + intros d. etransitivity; [apply Hmono|apply remaining_Steps].
    + intros d Hd. apply elem_of_cons in Hd as [->|Hd]; [|apply Hzero, Hd].
      pose proof (Hmono d0). pose proof (remaining_Steps_same 4 d0 p).
      pose proof (remaining_le_4 d0 p). fold p1 in H0. lia.
    + rewrite Hlen. apply exec_Steps_length.
Qed.

(** When [Receive] returns, every call of the callback has returned. *)
Lemma run_returned sched p d i :
  pubsub.invocations (pubsub.run h rs sched p) !! d = Some i ->
  pubsub.inv_at i = None.
Proof.
  unfold pubsub.run. cbn zeta.
  set (p' := pubsub.exec h rs sched p).
  unfold pubsub.finish_all. change (pubsub.cb_fuel h) with 4%nat.
  destruct (finish_returns (seq 0 (length (pubsub.invocations p'))) p')
    as (_ & Hzero & Hlen). cbn zeta in *.
  intros Hd. specialize (Hzero d).
  assert (Hin : d ∈ seq 0 (length (pubsub.invocations p'))).
  { apply elem_of_seq. apply lookup_lt_Some in Hd. rewrite Hlen in Hd. lia. }
  specialize (Hzero Hin). unfold remaining in Hzero. rewrite Hd in Hzero.
  destruct (pubsub.inv_at i) as [[]|]; cbn in Hzero; try discriminate.
  reflexivity.
Qed.

Lemma handler_inv_run sched err :
  handler_inv env topic (pubsub.run h rs sched (pool0 err)).
Proof.
  apply (run_invariant h rs (handler_inv env topic)).
  - intros a p. apply handler_inv_step.
  - apply handler_inv_pool0.
Qed.

End HandlerReturns.

(** ** Acknowledgement *)

Lemma filter_of_delivery_absorb f d tr :
  (forall e, f e = true -> of_delivery d e = true) ->
  List.filter f tr = List.filter f (List.filter (of_delivery d) tr).
Proof.
  intros Hf. induction tr as [|e tr IH]; [reflexivity|].
  cbn. destruct (of_delivery d e) eqn:He; cbn.
  - destruct (f e); cbn; congruence.
  - destruct (f e) eqn:Hfe; [|exact IH]. apply Hf in Hfe. congruence.
Qed.

Lemma count_filter_of_delivery f d tr :
  (forall e, f e = true -> of_delivery d e = true) ->
  count f tr = count f (List.filter (of_delivery d) tr).
Proof.
  intros Hf. unfold count. rewrite <- (filter_of_delivery_absorb f d tr Hf).
  reflexivity.
Qed.

Lemma is_ack_of_delivery d e : is_ack d e = true -> of_delivery d e = true.
Proof. destruct e; cbn; congruence. Qed.

Lemma is_nack_of_delivery d e : is_nack d e = true -> of_delivery d e = true.
Proof. destruct e; cbn; congruence. Qed.

Lemma is_publish_of_delivery d e : is_publish d e = true -> of_delivery d e = true.
Proof. destruct e; cbn; congruence. Qed.

(** The acks and nacks of a delivery, from what the delivery has done. *)
Lemma delivery_events_counts env topic tr d i :
  delivery_events env topic tr d (Some i) ->
  (count (is_ack d) tr <= 1)%nat
  /\ (count (is_ack d) tr + count (is_nack d) tr
      = if pubsub.running i then 0 else 1)%nat.
Proof.
  unfold delivery_events. cbn zeta. intros H.
  rewrite (count_filter_of_delivery (is_ack d) d) by apply is_ack_of_delivery.
  rewrite (count_filter_of_delivery (is_nack d) d) by apply is_nack_of_delivery.
  destruct i as [m [l|]]; unfold pubsub.running; cbn.
  - destruct l; rewrite H; cbn; lia.
  - destruct H as [H|H]; rewrite H; unfold count; cbn;
      rewrite Nat.eqb_refl; cbn; lia.
Qed.

(** C3. Take any execution of the receive loop and any delivery [d] made in
    it.  At that point of the execution the source message of [d] has been
    acked at most once, and acked or nacked exactly once if the callback has
    returned and not at all if it is still running, whichever branch it
    took; and by the time [Receive] returns the callback of [d] has
    returned, with exactly one ack or nack. *)
Theorem handler_one_of_ack_nack
    (env : Env) (topic : pubsub.Topic) (rs : pubsub.ReceiveSettings)
    (sched : list pubsub.Action) (err : error)
    (d : nat) (i : pubsub.Invocation (L := pc)) :
  let h := handler env topic in
  let p := pubsub.exec h rs sched (pool0 err) in
  let p' := pubsub.run h rs sched (pool0 err) in
  pubsub.invocations p !! d = Some i ->
  ((count (is_ack d) (pubsub.trace p) <= 1)%nat
   /\ (count (is_ack d) (pubsub.trace p) + count (is_nack d) (pubsub.trace p)
       = if pubsub.running i then 0 else 1)%nat)
  /\ exists i', pubsub.invocations p' !! d = Some i'
       /\ pubsub.inv_msg i' = pubsub.inv_msg i
       /\ pubsub.inv_at i' = None
       /\ (count (is_ack d) (pubsub.trace p') <= 1)%nat
       /\ (count (is_ack d) (pubsub.trace p') + count (is_nack d) (pubsub.trace p')
           = 1)%nat.
Proof.
  intros h p p' Hd. split.
  - apply (delivery_events_counts env topic).
    rewrite <- Hd. apply handler_inv_exec.
  - destruct (exec_msg h rs (pubsub.finish_all h (length (pubsub.invocations p)))
                p d i Hd) as (i' & Hd' & Hm).
    change (pubsub.exec h rs _ p) with p' in Hd'.
    exists i'. split; [exact Hd'|]. split; [exact Hm|].
    assert (Hret : pubsub.inv_at i' = None)
      by (eapply run_returned; exact Hd').
    split; [exact Hret|].
    pose proof (handler_inv_run env topic rs sched err d) as Hinv.
    fold h in Hinv. fold p' in Hinv. rewrite Hd' in Hinv.
    apply delivery_events_counts in Hinv.
    unfold pubsub.running in Hinv. rewrite Hret in Hinv. exact Hinv.
Qed.

Lemma handler_one_of_ack_nack_witness :
  let h := handler (sample_env [] None) sample_topic in
  let sched := [pubsub.Deliver msg2; pubsub.Step 0; pubsub.Step 0] in
  let p := pubsub.exec h sample_rs sched (pool0 None) in
  let p' := pubsub.run h sample_rs sched (pool0 None) in
  let i := {| pubsub.inv_msg := msg2; pubsub.inv_at := Some AtErrorf |} in
  pubsub.invocations p !! 0%nat = Some i
  /\ ((count (is_ack 0) (pubsub.trace p) <= 1)%nat
      /\ (count (is_ack 0) (pubsub.trace p) + count (is_nack 0) (pubsub.trace p)
          = 0)%nat)
  /\ exists i', pubsub.invocations p' !! 0%nat = Some i'
       /\ pubsub.inv_msg i' = msg2
       /\ pubsub.inv_at i' = None
       /\ (count (is_ack 0) (pubsub.trace p') <= 1)%nat
       /\ (count (is_ack 0) (pubsub.trace p') + count (is_nack 0) (pubsub.trace p')
           = 1)%nat.
Proof.
  cbn zeta. split; [reflexivity|].
  apply (handler_one_of_ack_nack (sample_env [] None) sample_topic sample_rs
           [pubsub.Deliver msg2; pubsub.Step 0; pubsub.Step 0] None 0
           {| pubsub.inv_msg := msg2; pubsub.inv_at := Some AtErrorf |}).
  reflexivity.
Defined.

(** ** Publication *)

(** C7. Take any execution of the receive loop in which the subscription
    hands message [m] to the callback, as delivery number [d].  When
    [Receive] returns, the publishes of delivery [d] on the destination
    topic are one publish, of [m] itself: the message value the callback
    was given, with its payload and its attributes. *)
Theorem published_message_is_received
    (env : Env) (topic : pubsub.Topic) (rs : pubsub.ReceiveSettings)
    (sched1 sched2 : list pubsub.Action) (m : pubsub.Message) (err : error) :
  let h := handler env topic in
  let p1 := pubsub.exec h rs sched1 (pool0 err) in
  let d := length (pubsub.invocations p1) in
  let p' := pubsub.run h rs (sched1 ++ pubsub.Deliver m :: sched2) (pool0 err) in
  pubsub.has_room rs p1 = true ->
  List.filter (is_publish d) (pubsub.trace p')
  = [EvPublish d topic m (env_Get env d topic m)].
Proof.
  intros h p1 d p' Hadm.
  pose proof (step_Deliver_has_room h rs m p1 Hadm) as Hd. fold d in Hd.
  set (p2 := pubsub.step h rs (pubsub.Deliver m) p1) in Hd.
  destruct (exec_msg h rs sched2 p2 d _ Hd) as (i3 & Hd3 & Hm3).
  set (p3 := pubsub.exec h rs sched2 p2) in Hd3.
  destruct (exec_msg h rs (pubsub.finish_all h (length (pubsub.invocations p3)))
              p3 d _ Hd3) as (i' & Hd' & Hm').
  assert (Hp' : p' = pubsub.exec h rs
                       (pubsub.finish_all h (length (pubsub.invocations p3))) p3).
  { unfold p', pubsub.run. cbn zeta. rewrite exec_app, exec_cons. reflexivity. }
  rewrite <- Hp' in Hd'.
  assert (Hret : pubsub.inv_at i' = None) by (eapply run_returned; exact Hd').
  pose proof (handler_inv_run env topic rs
                (sched1 ++ pubsub.Deliver m :: sched2) err d) as Hinv.
  fold h in Hinv. fold p' in Hinv. rewrite Hd' in Hinv.
  rewrite (filter_of_delivery_absorb (is_publish d) d)
    by apply is_publish_of_delivery.
  destruct i' as [m' l']. cbn in Hm', Hm3, Hret. subst l'.
  assert (m' = m) as -> by congruence.
  unfold delivery_events in Hinv. cbn zeta in Hinv.
  destruct Hinv as [H|H]; rewrite H; cbn; rewrite Nat.eqb_refl; reflexivity.
Qed.

Lemma published_message_is_received_witness :
  let h := handler (sample_env [] None) sample_topic in
  let sched1 := [pubsub.Deliver msg1; pubsub.Step 0] in
  let sched2 := [pubsub.Step 1; pubsub.Step 0] in
  let p1 := pubsub.exec h sample_rs sched1 (pool0 None) in
  let p' := pubsub.run h sample_rs (sched1 ++ pubsub.Deliver msg2 :: sched2)
              (pool0 None) in
  pubsub.has_room sample_rs p1 = true
  /\ List.filter (is_publish 1) (pubsub.trace p')
     = [EvPublish 1 sample_topic msg2 (Some "unavailable")].
Proof.
  cbn zeta. split; [reflexivity|].
  apply (published_message_is_received (sample_env [] None) sample_topic
           sample_rs [pubsub.Deliver msg1; pubsub.Step 0]
           [pubsub.Step 1; pubsub.Step 0] msg2 None).
  reflexivity.
Defined.

(** ** The variable [err] is shared by the calls of the callback *)

(** A callback that runs alone does what its own publish says: ack after a
    publish that succeeded, the error logged and a nack after one that
    failed. *)
Lemma handler_alone (env : Env) (topic : pubsub.Topic)
    (rs : pubsub.ReceiveSettings) (m : pubsub.Message) (err : error) :
  pubsub.has_room rs (pool0 err) = true ->
  pubsub.trace (pubsub.run (handler env topic) rs [pubsub.Deliver m] (pool0 err))
  = EvPublish 0 topic m (env_Get env 0 topic m)
    :: match env_Get env 0 topic m with
       | None => [EvAck 0]
       | Some e =>
           [EvLog logrus.ErrorLevel [] ("err when inserting data: " ++ e);
            EvNack 0]
       end.
Proof.
  intros Hadm. unfold pubsub.run, pubsub.exec. cbn. rewrite Hadm. cbn.
  destruct (env_Get env 0 topic m); reflexivity.
Qed.

(** C1 (the code breaks it).  Message 1 and message 2 are delivered and
    their callbacks overlap.  The publish of message 1 succeeds and stores
    [nil] in [err]; the publish of message 2 fails and stores its error in
    the same variable; the callback of message 1 then reads [err], finds the
    error of message 2, logs it and nacks message 1, which is never acked. *)
Theorem overlap_nacks_published_message :
  let p := pubsub.run (handler (sample_env [] None) sample_topic) sample_rs
             (overlap msg1 msg2) (pool0 None) in
  pubsub.trace p
  = [ EvPublish 0 sample_topic msg1 None;
      EvPublish 1 sample_topic msg2 (Some "unavailable");
      EvLog logrus.ErrorLevel [] "err when inserting data: unavailable";
      EvNack 0;
      EvLog logrus.ErrorLevel [] "err when inserting data: unavailable";
      EvNack 1 ]
  /\ count (is_ack 0) (pubsub.trace p) = 0%nat
  /\ count (is_nack 0) (pubsub.trace p) = 1%nat.
Proof. vm_compute. repeat split; reflexivity. Qed.

(** C2 (the code breaks it).  The same overlap with the messages in the
    other order: the publish of message 2 fails, the publish of message 1
    then stores [nil] in [err], and the callback of message 2 reads [nil]:
    message 2 is acked, never nacked, and its error is not logged. *)
Theorem overlap_acks_unpublished_message :
  let p := pubsub.run (handler (sample_env [] None) sample_topic) sample_rs
             (overlap msg2 msg1) (pool0 None) in
  pubsub.trace p
  = [ EvPublish 0 sample_topic msg2 (Some "unavailable");
      EvPublish 1 sample_topic msg1 None;
      EvAck 0;
      EvAck 1 ]
  /\ count (is_ack 0) (pubsub.trace p) = 1%nat
  /\ count (is_nack 0) (pubsub.trace p) = 0%nat
  /\ count (is_Log logrus.ErrorLevel) (pubsub.trace p) = 0%nat.
Proof. vm_compute. repeat split; reflexivity. Qed.

(** ** [SetLogger] *)

Lemma SetLogger_spec ll lf w :
  SetLogger ll lf w
  = (Ret tt, {| logger := {| logrus.formatter := SetLogger_formatter lf;
                             logrus.level := SetLogger_level ll |};
                events := (events w ++ SetLogger_log ll)%list |}).
Proof.
  unfold SetLogger, SetLogger_formatter, SetLogger_level, SetLogger_log.
  destruct (logrus.ParseLevel ll) as [l [e|]];
    destruct (String.eqb lf "json"); cbn; rewrite ?app_nil_r; reflexivity.
Qed.

(** C10. [SetLogger] returns for every level name and every format name.
    When [logrus.ParseLevel] rejects the name, exactly one entry is logged,
    at error level, and the level of the logger is info; when it accepts
    the name, nothing is logged and the level is the parsed one.  The
    formatter is the one the format name selects, whatever the level name. *)
Theorem SetLogger_level_and_formatter (ll lf : string) (w : World) :
  exists w', SetLogger ll lf w = (Ret tt, w')
    /\ match logrus.ParseLevel ll with
       | (_, Some e) =>
           logrus.level (logger w') = logrus.InfoLevel
           /\ events w'
              = (events w
                 ++ [EvLog logrus.ErrorLevel []
                       ("log level is not ok, setting to info by default : " ++ e)])%list
       | (l, None) =>
           logrus.level (logger w') = l /\ events w' = events w
       end
    /\ logrus.formatter (logger w')
       = (if String.eqb lf "json"
          then logrus.JSONFormatter "severity" "message"
          else logrus.TextFormatter true true true true)
    /\ forall ll', logrus.formatter (logger (SetLogger ll' lf w).2)
                   = logrus.formatter (logger w').
Proof.
  eexists. split; [apply SetLogger_spec|]. cbn.
  unfold SetLogger_level, SetLogger_log, SetLogger_formatter.
  split; [|split].
  - destruct (logrus.ParseLevel ll) as [l [e|]]; cbn;
      rewrite ?app_nil_r; split; reflexivity.
  - reflexivity.
  - intros ll'. rewrite SetLogger_spec. reflexivity.
Qed.

Example SetLogger_unknown_level :
  SetLogger "verbose" "json" World0
  = (Ret tt,
     {| logger := {| logrus.formatter := logrus.JSONFormatter "severity" "message";
                     logrus.level := logrus.InfoLevel |};
        events :=
          [EvLog logrus.ErrorLevel []
             ("log level is not ok, setting to info by default : "
              ++ "not a valid logrus Level: " ++ logrus.fmt_q "verbose")] |}).
Proof. reflexivity. Qed.

Example SetLogger_known_level :
  SetLogger "WARNING" "text" World0
  = (Ret tt,
     {| logger := {| logrus.formatter := logrus.TextFormatter true true true true;
                     logrus.level := logrus.WarnLevel |};
        events := [] |}).
Proof. reflexivity. Qed.

(** [strings.ToLower] lowers U+0130, the capital I with a dot above (bytes
    C4 B0), to [i]: the name [PAN], U+0130, [C] is the level [panic]. *)
Example ParseLevel_dotted_I :
  logrus.ParseLevel
    (String "P" (String "A" (String "N" (String "196" (String "176"
       (String "C" EmptyString))))))
  = (logrus.PanicLevel, None).
Proof. reflexivity. Qed.

(** [%q] puts a backslash before a double quote of the name it reports: the
    name [a], double quote, [b] is reported as [a], backslash, double quote,
    [b] between double quotes. *)
Example ParseLevel_quoted_name :
  logrus.ParseLevel (String "a" (String "034" (String "b" EmptyString)))
  = (logrus.PanicLevel,
     Some ("not a valid logrus Level: "
           ++ String "034" (String "a" (String "092" (String "034"
                (String "b" (String "034" EmptyString))))))).
Proof. reflexivity. Qed.

(** ** [Run] *)

Lemma bind_eq {A B} (m : M A) (f : A -> M B) w :
  (m ≫= f) w = match m w with
                | (Ret a, w') => f a w'
                | (Exited c, w') => (Exited c, w')
                | (Panicked s, w') => (Panicked s, w')
                end.
Proof. reflexivity. Qed.

Ltac run_unfold :=
  cbv beta iota zeta delta
    [Run mbind M_bind mret M_ret logrus_Debug logrus_Fatalf logrus_Errorf emit
     when Fprintf_Stderr os_Exit CredentialsFromJSON NewClient deref Receive];
  cbn [logger events fst snd].

Ltac run_simpl := cbn [logger events fst snd is_nil negb after_Receive].

Lemma existsb_is_Receive_SetLogger_log ll :
  existsb is_Receive (SetLogger_log ll) = false.
Proof. unfold SetLogger_log. destruct (logrus.ParseLevel ll).2; reflexivity. Qed.

Ltac run_stops :=
  cbn [logger events fst snd]; eexists; split;
  [ rewrite <- ?app_assoc; reflexivity
  | left; rewrite ?existsb_app, existsb_is_Receive_SetLogger_log;
    split; reflexivity ].

(** The two ways [Run] ends: it stops with a non-zero status before it calls
    [Receive], or it calls [Receive] once, on a subscription with the
    program's bound and with [err] nil, and ends as [Receive] tells. *)
Lemma Run_cases env cfgFile cfg w :
  exists tr, events (Run env cfgFile cfg w).2 = (events w ++ tr)%list
    /\ ((existsb is_Receive tr = false
         /\ exits_nonzero (Run env cfgFile cfg w).1 = true)
        \/ exists pre c_from c_to,
             let sub := pubsub.set_MaxOutstandingMessages pubSubMaxOutstandingMessages
                          (pubsub.NewSubscription c_from (PubSubSubscription cfg)) in
             let topic := pubsub.NewTopic c_to (PubSubDestinationTopic cfg) in
             existsb is_Receive pre = false
             /\ tr = (pre ++ EvReceive sub
                        :: pubsub.trace (pubsub.run (handler env topic)
                                           (pubsub.sub_ReceiveSettings sub)
                                           (env_schedule env) (pool0 None))
                        ++ (after_Receive (env_Receive env)).1)%list
             /\ (Run env cfgFile cfg w).1 = (after_Receive (env_Receive env)).2).
Proof.
  unfold Run. rewrite bind_eq, SetLogger_spec. run_unfold.
  destruct (String.eqb (FromGoogleCloudProject cfg) EmptyString);
    [run_stops|]; run_simpl.
  destruct (String.eqb (ToGoogleCloudProject cfg) EmptyString);
    [run_stops|]; run_simpl.
  destruct (String.eqb (PubSubSubscription cfg) EmptyString);
    [run_stops|]; run_simpl.
  destruct (String.eqb (PubSubDestinationTopic cfg) EmptyString);
    [run_stops|]; run_simpl.
  destruct (env_CredentialsFromJSON env _ _) as [fromCreds err1]; run_simpl.
  destruct (env_CredentialsFromJSON env _ _) as [toCreds [e2|]];
    run_simpl; [run_stops|].
  destruct (env_NewClient env _ fromCreds) as [fromClient err3]; run_simpl.
  destruct (env_NewClient env _ toCreds) as [toClient [e4|]];
    run_simpl; [run_stops|].
  destruct fromClient as [c_from|]; [|run_stops]; run_simpl.
  destruct toClient as [c_to|]; [|run_stops]; run_simpl.
  destruct (env_Receive env) as [e|]; run_simpl;
    (eexists; split; [rewrite <- ?app_assoc; reflexivity|]);
    right;
    exists (SetLogger_log (LogLevel cfg)
            ++ [ Configuration_log cfgFile cfg;
                 EvCredentialsFromJSON (FromGoogleApplicationCredentials cfg)
                   pubsub.ScopePubSub;
                 EvCredentialsFromJSON (ToGoogleApplicationCredentials cfg)
                   pubsub.ScopePubSub;
                 EvNewClient (FromGoogleCloudProject cfg) fromCreds;
                 EvNewClient (ToGoogleCloudProject cfg) toCreds ])%list,
           c_from, c_to;
    cbn zeta; (split; [|split]);
    [ rewrite existsb_app, existsb_is_Receive_SetLogger_log; reflexivity
    | rewrite <- ?app_assoc, ?app_nil_r; reflexivity
    | reflexivity
    | rewrite existsb_app, existsb_is_Receive_SetLogger_log; reflexivity
    | rewrite <- ?app_assoc, ?app_nil_r; reflexivity
    | reflexivity ].
Qed.

Lemma new_events_app w (res : Result unit * World) tr :
  events res.2 = (events w ++ tr)%list -> new_events w res = tr.
Proof. intros H. unfold new_events. rewrite H. apply drop_app_length. Qed.

Lemma existsb_false_In (f : Event -> bool) tr e :
  existsb f tr = false -> In e tr -> f e = false.
Proof.
  intros Hf Hin. destruct (f e) eqn:He; [|reflexivity].
  assert (existsb f tr = true) by (apply existsb_exists; eauto). congruence.
Qed.

(** The callback neither calls [Receive] nor logs at fatal level. *)
Lemma handler_trace_quiet env topic rs sched err (f : Event -> bool) :
  (forall d t m r, f (EvPublish d t m r) = false) ->
  (forall d, f (EvAck d) = false) -> (forall d, f (EvNack d) = false) ->
  (forall msg, f (EvLog logrus.ErrorLevel [] msg) = false) ->
  existsb f (pubsub.trace (pubsub.run (handler env topic) rs sched (pool0 err)))
  = false.
Proof.
  intros Hp Ha Hn Hl.
  apply (run_invariant (handler env topic) rs
           (fun p => existsb f (pubsub.trace p) = false)); [|reflexivity].
  intros [m|d] p Hq; cbn.
  - destruct (pubsub.has_room rs p); exact Hq.
  - destruct (pubsub.invocations p !! d) as [[m [l|]]|]; try exact Hq.
    destruct l; cbn; rewrite existsb_app, Hq; cbn;
      rewrite ?Hp, ?Ha, ?Hn, ?Hl; reflexivity.
Qed.

(** ** Start-up: required fields *)

(** X1.  The four fields [Run] tests.  When the source project, the destination
    project, the subscription name or the destination topic name is empty,
    [Run] writes one message on stderr, naming the first of them that is
    empty, and exits with status 1; before that it has set up the logger and
    logged the configuration at debug level, and nothing else: no credential
    is parsed, no client and no subscription is created. *)
Lemma Run_checked_field_empty
    (env : Env) (cfgFile : string) (cfg : Config) (w : World) :
  checked_field_empty cfg = true ->
  Run env cfgFile cfg w
  = (Exited 1,
     {| logger := Run_logger cfg;
        events := (events w ++ SetLogger_log (LogLevel cfg)
                   ++ [Configuration_log cfgFile cfg; EvStderr (must_be_set cfg)])%list |}).
Proof.
  intros H. unfold Run. rewrite bind_eq, SetLogger_spec.
  unfold checked_field_empty, must_be_set, is_empty in *. run_unfold.
  destruct (String.eqb (FromGoogleCloudProject cfg) EmptyString); run_simpl;
    [rewrite <- !app_assoc; reflexivity|].
  destruct (String.eqb (ToGoogleCloudProject cfg) EmptyString); run_simpl;
    [rewrite <- !app_assoc; reflexivity|].
  destruct (String.eqb (PubSubSubscription cfg) EmptyString); run_simpl;
    [rewrite <- !app_assoc; reflexivity|].
  destruct (String.eqb (PubSubDestinationTopic cfg) EmptyString); run_simpl;
    [rewrite <- !app_assoc; reflexivity|].
  discriminate.
Qed.

Example Run_no_subscription :
  checked_field_empty cfg_no_subscription = true
  /\ Run (sample_env [] None) "relay.yaml" cfg_no_subscription World0
     = (Exited 1,
        {| logger := {| logrus.formatter := logrus.TextFormatter true true true true;
                        logrus.level := logrus.InfoLevel |};
           events :=
             SetLogger_log "verbose"
             ++ [ Configuration_log "relay.yaml" cfg_no_subscription;
                  EvStderr ("PUBSUB_SUBSCRIPTION variable must be set." ++ nl) ] |}).
Proof.
  split; [reflexivity|].
  apply (Run_checked_field_empty (sample_env [] None) "relay.yaml"
           cfg_no_subscription World0).
  reflexivity.
Defined.

(** C5 (the code breaks it).  The source credentials are one of the six
    required fields and here they are empty.  [Run] has no test of its own
    for them: it relies on [CredentialsFromJSON], whose error for the source
    side is overwritten by the nil error of the destination side before it
    is tested.  The process writes nothing on stderr, builds both clients
    and calls [Receive]; on a machine without default credentials it builds
    the destination client and then panics. *)
Theorem empty_source_credentials_not_stopped :
  required_field_empty cfg_no_source_credentials = true
  /\ stops_before_clients World0
       (Run (sample_env [] None) EmptyString cfg_no_source_credentials World0)
     = false
  /\ new_events World0
       (Run (sample_env [] None) EmptyString cfg_no_source_credentials World0)
     = [ Configuration_log EmptyString cfg_no_source_credentials;
         EvCredentialsFromJSON EmptyString pubsub.ScopePubSub;
         EvCredentialsFromJSON "{dst}" pubsub.ScopePubSub;
         EvNewClient "src-project" None;
         EvNewClient "dst-project"
           (Some {| google.JSON := "{dst}"; google.scope := pubsub.ScopePubSub |});
         EvReceive
           (pubsub.set_MaxOutstandingMessages pubSubMaxOutstandingMessages
              (pubsub.NewSubscription
                 {| pubsub.projectID := "src-project"; pubsub.credentials := None |}
                 "orders-sub")) ]
  /\ stops_before_clients World0
       (Run (strict_env [] None) EmptyString cfg_no_source_credentials World0)
     = false.
Proof. repeat split; reflexivity. Qed.

(** ** Start-up: credentials and clients *)

(** C4 (the code breaks it).  The source credentials are not a credential
    document and the destination credentials are one.  The error of the
    first [CredentialsFromJSON] is overwritten by the nil error of the
    second before it is tested: nothing is logged, the source client is
    built from nil credentials and the receive loop is entered. *)
Theorem bad_source_credentials_reach_Receive :
  let res := Run (sample_env [] None) EmptyString cfg_bad_source_credentials World0 in
  env_CredentialsFromJSON (sample_env [] None) "not json" pubsub.ScopePubSub
  = (None, Some "invalid character looking for beginning of value")
  /\ res.1 = Ret tt
  /\ events res.2
     = [ Configuration_log EmptyString cfg_bad_source_credentials;
         EvCredentialsFromJSON "not json" pubsub.ScopePubSub;
         EvCredentialsFromJSON "{dst}" pubsub.ScopePubSub;
         EvNewClient "src-project" None;
         EvNewClient "dst-project"
           (Some {| google.JSON := "{dst}"; google.scope := pubsub.ScopePubSub |});
         EvReceive
           (pubsub.set_MaxOutstandingMessages pubSubMaxOutstandingMessages
              (pubsub.NewSubscription
                 {| pubsub.projectID := "src-project"; pubsub.credentials := None |}
                 "orders-sub")) ]
  /\ fails_before_Receive World0 res = false.
Proof. repeat split; reflexivity. Qed.

(** On a machine without default credentials the same configuration ends in
    a panic: the error of the source client is overwritten in its turn, and
    [Subscription] is called through the nil client. *)
Example bad_source_credentials_panic :
  let res := Run (strict_env [] None) EmptyString cfg_bad_source_credentials World0 in
  res.1 = Panicked "invalid memory address or nil pointer dereference"
  /\ existsb (is_Log logrus.FatalLevel) (events res.2) = false.
Proof. split; reflexivity. Qed.

(** X2.  Destination credentials that do not parse.  When the four tested
    fields are set and [CredentialsFromJSON] returns an error for the
    destination credentials, [Run] logs [Could not find credentials] with
    that error at fatal level and exits with status 1: both documents have
    been parsed, no client is built, and what the parse of the source
    credentials returned plays no part. *)
Lemma Run_destination_credentials_invalid env cfgFile cfg w c e :
  checked_field_empty cfg = false ->
  env_CredentialsFromJSON env (ToGoogleApplicationCredentials cfg) pubsub.ScopePubSub
  = (c, Some e) ->
  Run env cfgFile cfg w
  = (Exited 1,
     {| logger := Run_logger cfg;
        events :=
          (events w ++ SetLogger_log (LogLevel cfg)
           ++ [ Configuration_log cfgFile cfg;
                EvCredentialsFromJSON (FromGoogleApplicationCredentials cfg)
                  pubsub.ScopePubSub;
                EvCredentialsFromJSON (ToGoogleApplicationCredentials cfg)
                  pubsub.ScopePubSub;
                EvLog logrus.FatalLevel [] ("Could not find credentials: " ++ e) ])%list |}).
Proof.
  intros H Hto. unfold Run. rewrite bind_eq, SetLogger_spec.
  unfold checked_field_empty, is_empty in H.
  apply orb_false_iff in H as [H H4]. apply orb_false_iff in H as [H H3].
  apply orb_false_iff in H as [H1 H2].
  run_unfold. rewrite H1, H2, H3, H4. run_simpl.
  destruct (env_CredentialsFromJSON env (FromGoogleApplicationCredentials cfg) _)
    as [fromCreds err1]; run_simpl.
  rewrite Hto. run_simpl. rewrite <- !app_assoc. reflexivity.
Qed.

(** X3.  A destination client that cannot be built.  When the destination
    credentials parse and [NewClient] returns an error for the destination
    project, [Run] logs [Could not create pubsub Client] with that error at
    fatal level and exits with status 1, after both calls of [NewClient] and
    without calling [Receive]. *)
Lemma Run_destination_client_fails env cfgFile cfg w fromCreds err1 toCreds c e :
  checked_field_empty cfg = false ->
  env_CredentialsFromJSON env (FromGoogleApplicationCredentials cfg) pubsub.ScopePubSub
  = (fromCreds, err1) ->
  env_CredentialsFromJSON env (ToGoogleApplicationCredentials cfg) pubsub.ScopePubSub
  = (toCreds, None) ->
  env_NewClient env (ToGoogleCloudProject cfg) toCreds = (c, Some e) ->
  Run env cfgFile cfg w
  = (Exited 1,
     {| logger := Run_logger cfg;
        events :=
          (events w ++ SetLogger_log (LogLevel cfg)
           ++ [ Configuration_log cfgFile cfg;
                EvCredentialsFromJSON (FromGoogleApplicationCredentials cfg)
                  pubsub.ScopePubSub;
                EvCredentialsFromJSON (ToGoogleApplicationCredentials cfg)
                  pubsub.ScopePubSub;
                EvNewClient (FromGoogleCloudProject cfg) fromCreds;
                EvNewClient (ToGoogleCloudProject cfg) toCreds;
                EvLog logrus.FatalLevel [] ("Could not create pubsub Client: " ++ e) ])%list |}).
Proof.
  intros H Hfrom Hto Hc. unfold Run. rewrite bind_eq, SetLogger_spec.
  unfold checked_field_empty, is_empty in H.
  apply orb_false_iff in H as [H H4]. apply orb_false_iff in H as [H H3].
  apply orb_false_iff in H as [H1 H2].
  run_unfold. rewrite H1, H2, H3, H4. run_simpl.
  rewrite Hfrom. run_simpl. rewrite Hto. run_simpl.
  destruct (env_NewClient env (FromGoogleCloudProject cfg) fromCreds)
    as [fromClient err3]; run_simpl.
  rewrite Hc. run_simpl. rewrite <- !app_assoc. reflexivity.
Qed.

(** ** The bound on outstanding messages *)

(** C6 as the specification words it fails: the configuration record has no
    field that holds the bound.  The run below reaches [Receive] with a
    bound of 10, and none of the fields of its configuration is that
    number: they are the eight strings of [Config]. *)
Lemma max_outstanding_is_no_field_of_Config :
  let res := Run (sample_env [] None) EmptyString sample_cfg World0 in
  In (EvReceive sample_subscription) (new_events World0 res)
  /\ pubsub.MaxOutstandingMessages (pubsub.sub_ReceiveSettings sample_subscription)
     = 10%Z
  /\ length Config_fields = 8%nat
  /\ Forall (fun kf => kf.2 sample_cfg <> IntField 10) Config_fields.
Proof.
  cbn zeta. split; [|split; [|split]].
  - vm_compute. do 5 right. left. reflexivity.
  - reflexivity.
  - reflexivity.
  - repeat constructor; discriminate.
Qed.

(** C6, as the code has it.  Whatever the configuration, the subscription
    [Run] calls [Receive] on carries the constant of the program,
    [pubSubMaxOutstandingMessages], which is 10, as its
    [MaxOutstandingMessages]; and with that setting the flow control of
    [Receive] never lets more than 10 calls of the callback run at a time,
    at any point of any execution. *)
Theorem Receive_bound_is_the_constant
    (env : Env) (cfgFile : string) (cfg : Config) (w : World)
    (sub : pubsub.Subscription) :
  In (EvReceive sub) (new_events w (Run env cfgFile cfg w)) ->
  pubsub.MaxOutstandingMessages (pubsub.sub_ReceiveSettings sub)
  = pubSubMaxOutstandingMessages
  /\ pubSubMaxOutstandingMessages = 10%Z
  /\ forall topic sched err,
       (pubsub.outstanding
          (pubsub.exec (handler env topic) (pubsub.sub_ReceiveSettings sub)
             sched (pool0 err)) <= 10)%nat.
Proof.
  intros Hin.
  destruct (Run_cases env cfgFile cfg w) as (tr & Htr & Hcases).
  rewrite (new_events_app _ _ _ Htr) in Hin.
  assert (Hsub : pubsub.sub_ReceiveSettings sub
                 = {| pubsub.MaxOutstandingMessages := pubSubMaxOutstandingMessages |}).
  { destruct Hcases as [[Hno _]|(pre & c_from & c_to & Hpre & -> & _)].
    - apply (existsb_false_In _ _ _ Hno) in Hin. discriminate.
    - apply in_app_or in Hin as [Hin|Hin].
      { apply (existsb_false_In _ _ _ Hpre) in Hin. discriminate. }
      destruct Hin as [Heq|Hin]; [injection Heq as <-; reflexivity|].
      apply in_app_or in Hin as [Hin|Hin].
      + eapply existsb_false_In in Hin;
          [|apply (handler_trace_quiet _ _ _ _ _ is_Receive); reflexivity].
        discriminate.
      + destruct (env_Receive env); cbn in Hin; [|contradiction].
        destruct Hin as [Heq|[]]. discriminate. }
  rewrite Hsub. split; [reflexivity|]. split; [reflexivity|].
  intros topic sched err.
  pose proof (exec_outstanding (handler env topic)
                {| pubsub.MaxOutstandingMessages := pubSubMaxOutstandingMessages |}
                10%Z sched (pool0 err) eq_refl) as H.
  cbn in H. lia.
Qed.

Lemma Receive_bound_is_the_constant_witness :
  In (EvReceive sample_subscription)
    (new_events World0
       (Run (sample_env (overlap msg1 msg2) None) EmptyString sample_cfg World0))
  /\ pubsub.MaxOutstandingMessages (pubsub.sub_ReceiveSettings sample_subscription)
     = pubSubMaxOutstandingMessages
  /\ pubSubMaxOutstandingMessages = 10%Z
  /\ forall topic sched err,
       (pubsub.outstanding
          (pubsub.exec (handler (sample_env (overlap msg1 msg2) None) topic)
             (pubsub.sub_ReceiveSettings sample_subscription)
             sched (pool0 err)) <= 10)%nat.
Proof.
  assert (Hin : In (EvReceive sample_subscription)
                  (new_events World0
                     (Run (sample_env (overlap msg1 msg2) None) EmptyString
                        sample_cfg World0)))
    by (vm_compute; do 5 right; left; reflexivity).
  split; [exact Hin|].
  exact (Receive_bound_is_the_constant (sample_env (overlap msg1 msg2) None)
           EmptyString sample_cfg World0 sample_subscription Hin).
Defined.

(** ** The end of the receive loop *)

(** Once [Run] has called [Receive] it does nothing until [Receive] has
    returned: the events of the receive loop follow the call, and what [Run]
    does next follows them, according to what [Receive] returned. *)
Lemma Run_Receive_returned
    (env : Env) (cfgFile : string) (cfg : Config) (w : World)
    (sub : pubsub.Subscription) :
  In (EvReceive sub) (new_events w (Run env cfgFile cfg w)) ->
  exists pre topic,
    let loop := pubsub.trace
                  (pubsub.run (handler env topic) (pubsub.sub_ReceiveSettings sub)
                     (env_schedule env) (pool0 None)) in
    existsb is_Receive pre = false
    /\ match env_Receive env with
       | Some e =>
           new_events w (Run env cfgFile cfg w)
           = (pre ++ EvReceive sub :: loop ++ [EvLog logrus.FatalLevel [] e])%list
           /\ (Run env cfgFile cfg w).1 = Exited 1
       | None =>
           new_events w (Run env cfgFile cfg w)
           = (pre ++ EvReceive sub :: loop)%list
           /\ (Run env cfgFile cfg w).1 = Ret tt
       end.
Proof.
  intros Hin.
  destruct (Run_cases env cfgFile cfg w) as (tr & Htr & Hcases).
  rewrite (new_events_app _ _ _ Htr) in *.
  destruct Hcases as [[Hno _]|(pre & c_from & c_to & Hpre & Heq & Hres)].
  { apply (existsb_false_In _ _ _ Hno) in Hin. discriminate. }
  cbn zeta in Heq.
  set (sub0 := pubsub.set_MaxOutstandingMessages pubSubMaxOutstandingMessages
                 (pubsub.NewSubscription c_from (PubSubSubscription cfg))) in *.
  assert (Hsub : sub = sub0).
  { rewrite Heq in Hin. apply in_app_or in Hin as [Hin|Hin].
    { apply (existsb_false_In _ _ _ Hpre) in Hin. discriminate. }
    destruct Hin as [Hin|Hin]; [injection Hin as <-; reflexivity|].
    apply in_app_or in Hin as [Hin|Hin].
    - eapply existsb_false_In in Hin;
        [|apply (handler_trace_quiet _ _ _ _ _ is_Receive); reflexivity].
      discriminate.
    - destruct (env_Receive env); cbn in Hin; [|contradiction].
      destruct Hin as [Hin|[]]. discriminate. }
  subst sub. exists pre, (pubsub.NewTopic c_to (PubSubDestinationTopic cfg)).
  cbn zeta. split; [exact Hpre|].
  rewrite Heq, Hres. destruct (env_Receive env) as [e|]; cbn.
  - split; reflexivity.
  - rewrite app_nil_r. split; reflexivity.
Qed.

(** C8.  [Run] blocks in [Receive]: once it has called it, the next events
    of the process are those of the receive loop, and [Run] goes on only
    when [Receive] has returned.  With the context [Run] passes, [Receive]
    returns only with an error ([Receive_Background]).  The process then
    logs that error at fatal level, which is its last event, and exits with
    status 1, a non-zero status. *)
Theorem Receive_error_is_fatal
    (env : Env) (cfgFile : string) (cfg : Config) (w : World)
    (sub : pubsub.Subscription) :
  Receive_Background env ->
  In (EvReceive sub) (new_events w (Run env cfgFile cfg w)) ->
  exists e pre topic,
    let loop := pubsub.trace
                  (pubsub.run (handler env topic) (pubsub.sub_ReceiveSettings sub)
                     (env_schedule env) (pool0 None)) in
    env_Receive env = Some e
    /\ existsb is_Receive pre = false
    /\ new_events w (Run env cfgFile cfg w)
       = (pre ++ EvReceive sub :: loop ++ [EvLog logrus.FatalLevel [] e])%list
    /\ (Run env cfgFile cfg w).1 = Exited 1
    /\ exits_nonzero (Run env cfgFile cfg w).1 = true.
Proof.
  unfold Receive_Background. intros Hrecv Hin.
  destruct (Run_Receive_returned env cfgFile cfg w sub Hin)
    as (pre & topic & Hpre & Hend).
  destruct (env_Receive env) as [e|]; [|discriminate].
  destruct Hend as [Heq Hres].
  exists e, pre, topic. cbn zeta.
  split; [reflexivity|]. split; [exact Hpre|]. split; [exact Heq|].
  rewrite Hres. split; reflexivity.
Qed.

Lemma Receive_error_is_fatal_witness :
  let env := sample_env [pubsub.Deliver msg2] (Some "deadline exceeded") in
  let res := Run env EmptyString sample_cfg World0 in
  Receive_Background env
  /\ In (EvReceive sample_subscription) (new_events World0 res)
  /\ exists e pre topic,
       let loop := pubsub.trace
                     (pubsub.run (handler env topic)
                        (pubsub.sub_ReceiveSettings sample_subscription)
                        (env_schedule env) (pool0 None)) in
       env_Receive env = Some e
       /\ existsb is_Receive pre = false
       /\ new_events World0 res
          = (pre ++ EvReceive sample_subscription
               :: loop ++ [EvLog logrus.FatalLevel [] e])%list
       /\ res.1 = Exited 1
       /\ exits_nonzero res.1 = true.
Proof.
  cbn zeta.
  assert (Hrecv : Receive_Background
                    (sample_env [pubsub.Deliver msg2] (Some "deadline exceeded")))
    by reflexivity.
  assert (Hin : In (EvReceive sample_subscription)
                  (new_events World0
                     (Run (sample_env [pubsub.Deliver msg2] (Some "deadline exceeded"))
                        EmptyString sample_cfg World0)))
    by (vm_compute; do 5 right; left; reflexivity).
  split; [exact Hrecv|]. split; [exact Hin|].
  exact (Receive_error_is_fatal
           (sample_env [pubsub.Deliver msg2] (Some "deadline exceeded"))
           EmptyString sample_cfg World0 sample_subscription Hrecv Hin).
Defined.

(** The run of the sample: the message is published with an error, so it is
    nacked after the error entry; [Receive] then fails, and its error is the
    last entry before the exit. *)
Example Receive_error_is_fatal_sample :
  let res := Run (sample_env [pubsub.Deliver msg2] (Some "deadline exceeded"))
               EmptyString sample_cfg World0 in
  drop 5 (new_events World0 res)
  = [ EvReceive sample_subscription;
      EvPublish 0 sample_topic msg2 (Some "unavailable");
      EvLog logrus.ErrorLevel [] "err when inserting data: unavailable";
      EvNack 0;
      EvLog logrus.FatalLevel [] "deadline exceeded" ]
  /\ res.1 = Exited 1.
Proof. cbn zeta. split; vm_compute; reflexivity. Qed.

(** ** Configuration *)

Lemma Set_lookup name value fs fs' k f :
  pflag.Set_ name value fs = (fs', None) ->
  fs !! k = Some f ->
  fs' !! k = Some (parsed_flag f (if String.eqb name k then Some value else None)).
Proof.
  unfold pflag.Set_. intros HS Hk.
  destruct (fs !! name) as [fn|] eqn:Hn; [|discriminate].
  injection HS as <-.
  destruct (String.eqb_spec name k) as [->|Hne].
  - rewrite lookup_insert_eq. cbn. congruence.
  - rewrite lookup_insert_ne by exact Hne. exact Hk.
Qed.

Lemma parsed_flag_parsed_flag f g1 g2 :
  parsed_flag (parsed_flag f g1) g2
  = parsed_flag f (match g2 with Some v => Some v | None => g1 end).
Proof. destruct g1, g2; reflexivity. Qed.

(** After the command line is parsed a flag holds the last value the command
    line gives it, and is marked as changed; a flag the command line does
    not mention is as [init] declared it. *)
Lemma Parse_lookup args : forall fs fs' k f,
  pflag.Parse args fs = (fs', None) ->
  fs !! k = Some f ->
  fs' !! k = Some (parsed_flag f (given args k)).
Proof.
  induction args as [|[name value] args IH]; intros fs fs' k f HP Hk.
  - cbn in *. injection HP as <-. exact Hk.
  - cbn [pflag.Parse] in HP.
    destruct (pflag.Set_ name value fs) as [fs1 [e|]] eqn:HS; [discriminate|].
    pose proof (Set_lookup _ _ _ _ _ _ HS Hk) as Hk1.
    rewrite (IH _ _ _ _ HP Hk1), parsed_flag_parsed_flag. reflexivity.
Qed.

Lemma config_not_bound : paramConfig ∉ viper.pflags init.2.
Proof. apply (bool_decide_eq_false_1 _). vm_compute. reflexivity. Qed.

Lemma from_env_not_empty os k v : from_env os k = Some v -> String.eqb v EmptyString = false.
Proof.
  unfold from_env. destruct (environ os !! env_name k) as [val|]; [|discriminate].
  destruct (String.eqb val EmptyString) eqn:He; [discriminate|].
  intros [= <-]. exact He.
Qed.

Lemma initConfig_spec os flags w :
  exists v w',
    initConfig os flags init.2 w
    = (Ret {| LogFormat := viper.GetString os flags v paramLogFormat;
              LogLevel := viper.GetString os flags v paramLogLevel;
              FromGoogleCloudProject :=
                viper.GetString os flags v paramFromGoogleCloudProject;
              ToGoogleCloudProject :=
                viper.GetString os flags v paramToGoogleCloudProject;
              FromGoogleApplicationCredentials :=
                viper.GetString os flags v paramFromGoogleApplicationCredentials;
              ToGoogleApplicationCredentials :=
                viper.GetString os flags v paramToGoogleApplicationCredentials;
              PubSubSubscription := viper.GetString os flags v paramPubSubSubscription;
              PubSubDestinationTopic :=
                viper.GetString os flags v paramPubSubDestinationTopic |}, w')
    /\ viper_ready os v.
Proof.
  unfold initConfig.
  set (v1 := viper.AutomaticEnv (viper.SetEnvKeyReplacer "-" "_" init.2)).
  assert (Hpath : viper.GetString os flags v1 paramConfig
                  = default EmptyString (from_env os paramConfig)).
  { unfold viper.GetString, viper.find.
    change (ToLower paramConfig) with paramConfig.
    replace (viper.pflags v1) with (viper.pflags init.2) by reflexivity.
    rewrite (decide_False (P := paramConfig ∈ viper.pflags init.2))
      by exact config_not_bound.
    change (viper.automaticEnvApplied v1) with true. cbn match.
    change (viper.getEnv os v1 (ToUpper paramConfig)) with (from_env os paramConfig).
    destruct (from_env os paramConfig); [reflexivity|].
    change (viper.config v1) with (∅ : gmap string string).
    rewrite lookup_empty. reflexivity. }
  rewrite Hpath. unfold viper_ready, from_file.
  destruct (from_env os paramConfig) as [path|] eqn:Henv; cbn [default id].
  - pose proof (from_env_not_empty _ _ _ Henv) as Hne.
    unfold viper.SetConfigFile, viper.ReadInConfig. rewrite Hne.
    cbn [viper.configFile]. rewrite Hne.
    destruct (files os !! path) as [settings|]; cbn;
      eexists _, _; (split; [reflexivity|]); repeat split; reflexivity.
  - unfold viper.SetConfigFile, viper.ReadInConfig. cbn.
    eexists _, _. split; [reflexivity|]. repeat split; reflexivity.
Qed.

(** What a getter returns for a parameter bound to a flag: the lookup order
    of viper, read off the state [initConfig] works in. *)
Lemma GetString_ready os flags v k f :
  viper_ready os v ->
  ToLower k = k ->
  k ∈ viper.pflags init.2 ->
  flags !! k = Some f ->
  viper.GetString os flags v k
  = if pflag.Changed f then pflag.Value f
    else match from_env os k with
         | Some e => e
         | None => match from_file os !! k with
                   | Some c => c
                   | None => pflag.Value f
                   end
         end.
Proof.
  intros (Hp & Hr & Ha & Hc) Hlow Hin Hf.
  unfold viper.GetString, viper.find. rewrite Hlow, Hp, Ha, Hc.
  rewrite (decide_True (P := k ∈ viper.pflags init.2)) by exact Hin.
  rewrite Hf. destruct f as [d val [|]]; cbn; [reflexivity|].
  unfold viper.getEnv. rewrite Hr. fold (env_name k). fold (from_env os k).
  destruct (from_env os k); [reflexivity|].
  destruct (from_file os !! k); reflexivity.
Qed.

(** The configuration record [initConfig] builds from a viper. *)
Lemma init_declares k field :
  In (k, field) Config_fields ->
  exists d,
    init.1 !! k = Some {| pflag.DefValue := d; pflag.Value := d;
                          pflag.Changed := false |}
    /\ ToLower k = k
    /\ k ∈ viper.pflags init.2
    /\ forall cfg v os flags,
         cfg = {| LogFormat := viper.GetString os flags v paramLogFormat;
                  LogLevel := viper.GetString os flags v paramLogLevel;
                  FromGoogleCloudProject :=
                    viper.GetString os flags v paramFromGoogleCloudProject;
                  ToGoogleCloudProject :=
                    viper.GetString os flags v paramToGoogleCloudProject;
                  FromGoogleApplicationCredentials :=
                    viper.GetString os flags v paramFromGoogleApplicationCredentials;
                  ToGoogleApplicationCredentials :=
                    viper.GetString os flags v paramToGoogleApplicationCredentials;
                  PubSubSubscription :=
                    viper.GetString os flags v paramPubSubSubscription;
                  PubSubDestinationTopic :=
                    viper.GetString os flags v paramPubSubDestinationTopic |} ->
         field cfg = StringField (viper.GetString os flags v k).
Proof.
  intros Hin. cbn in Hin.
  repeat (destruct Hin as [Hin|Hin];
          [ injection Hin as <- <-;
            match goal with
            | |- exists d, init.1 !! ?k = _ /\ _ =>
                let r := eval vm_compute in (pflag.DefValue <$> init.1 !! k) in
                match r with Some ?d => exists d end
            end;
            split; [vm_compute; reflexivity|];
            split; [vm_compute; reflexivity|];
            split; [apply (bool_decide_eq_true_1 _); vm_compute; reflexivity|];
            intros cfg v os flags ->; reflexivity | ]).
  contradiction.
Qed.

(** C9 (the code breaks it).  The command line
    [--config=/home/relay/other.yaml] names a configuration file that sets
    the log format to [text]; neither the command line nor the environment
    gives a log format, and the default is [json].  The command line is
    parsed and the flag holds the path, but [initConfig] does not read the
    file: the format it resolves is the default, not the value of the file,
    and it logs no [Using config file] entry.  [init] declares the flag with
    [StringVar] (line 159) and does not bind it to viper, so that
    [viper.GetString(paramConfig)] (line 179) does not see it. *)
Theorem config_flag_file_is_not_read :
  (pflag.Parse args_config_flag init.1).2 = None
  /\ pflag.Value <$> flags_config_flag !! paramConfig
     = Some "/home/relay/other.yaml"
  /\ (files os_config_flag !! "/home/relay/other.yaml") ≫= (.!! paramLogFormat)
     = Some "text"
  /\ given args_config_flag paramLogFormat = None
  /\ from_env os_config_flag paramLogFormat = None
  /\ pflag.DefValue <$> init.1 !! paramLogFormat = Some "json"
  /\ initConfig os_config_flag flags_config_flag init.2 World0
     = (Ret {| LogFormat := "json";
               LogLevel := "debug";
               FromGoogleCloudProject := EmptyString;
               ToGoogleCloudProject := EmptyString;
               FromGoogleApplicationCredentials := EmptyString;
               ToGoogleApplicationCredentials := EmptyString;
               PubSubSubscription := EmptyString;
               PubSubDestinationTopic := EmptyString |},
        World0).
Proof. repeat split; vm_compute; reflexivity. Qed.

(** The same file is read when the environment variable [CONFIG] names it,
    with or without the flag: the format is then the one of the file. *)
Example config_environment_file_is_read :
  initConfig os_config_environment flags_config_flag init.2 World0
  = (Ret {| LogFormat := "text";
            LogLevel := "debug";
            FromGoogleCloudProject := EmptyString;
            ToGoogleCloudProject := EmptyString;
            FromGoogleApplicationCredentials := EmptyString;
            ToGoogleApplicationCredentials := EmptyString;
            PubSubSubscription := EmptyString;
            PubSubDestinationTopic := EmptyString |},
     {| logger := logrus.std;
        events := [EvLog logrus.InfoLevel []
                     "Using config file: /home/relay/other.yaml"] |}).
Proof. vm_compute. reflexivity. Qed.

(** X16.  The order of the sources [initConfig] reads.  The command line is
    parsed into the flags [init] declared, and [initConfig] resolves every
    field of the configuration.  The configuration file is the one the
    environment variable [CONFIG] names ([from_file]).  For each of the
    eight parameters: a value given on the command line is the value of the
    field, whatever that file, the environment and the default are; without
    one, a value in that file is the value of the field unless the
    environment gives one, and the default plays no part; the default is the
    value of the field only when neither the command line, nor the
    environment, nor that file gives one. *)
Theorem initConfig_precedence
    (os : OS) (args : list (string * string)) (flags : gmap string pflag.Flag)
    (w : World) :
  pflag.Parse args init.1 = (flags, None) ->
  exists cfg w',
    initConfig os flags init.2 w = (Ret cfg, w')
    /\ forall k field dflt,
         In (k, field) Config_fields ->
         pflag.DefValue <$> init.1 !! k = Some dflt ->
         (forall v, given args k = Some v -> field cfg = StringField v)
         /\ (forall c, given args k = None -> from_file os !! k = Some c ->
               field cfg = StringField (default c (from_env os k)))
         /\ (given args k = None -> from_file os !! k = None ->
               from_env os k = None -> field cfg = StringField dflt).
Proof.
  intros HP. destruct (initConfig_spec os flags w) as (v & w' & Hinit & Hready).
  match type of Hinit with _ = (Ret ?c, _) => set (cfg := c) in * end.
  exists cfg, w'. split; [exact Hinit|].
  intros k field dflt Hin Hd.
  destruct (init_declares k field Hin) as (d & Hf0 & Hlow & Hbound & Hfield).
  specialize (Hfield cfg v os flags eq_refl).
  rewrite Hf0 in Hd. cbn in Hd. injection Hd as <-.
  pose proof (Parse_lookup args _ _ _ _ HP Hf0) as Hflag.
  rewrite Hfield, (GetString_ready os flags v k _ Hready Hlow Hbound Hflag).
  split; [|split].
  - intros val Hg. rewrite Hg. reflexivity.
  - intros c Hg Hc. rewrite Hg. cbn. rewrite Hc.
    destruct (from_env os k); reflexivity.
  - intros Hg Hc He. rewrite Hg. cbn. rewrite Hc, He. reflexivity.
Qed.

Lemma initConfig_precedence_witness :
  pflag.Parse sample_args init.1 = (sample_flags, None)
  /\ exists cfg w',
       initConfig sample_os sample_flags init.2 World0 = (Ret cfg, w')
       /\ forall k field dflt,
            In (k, field) Config_fields ->
            pflag.DefValue <$> init.1 !! k = Some dflt ->
            (forall v, given sample_args k = Some v -> field cfg = StringField v)
            /\ (forall c, given sample_args k = None ->
                  from_file sample_os !! k = Some c ->
                  field cfg = StringField (default c (from_env sample_os k)))
            /\ (given sample_args k = None -> from_file sample_os !! k = None ->
                  from_env sample_os k = None -> field cfg = StringField dflt).
Proof.
  assert (HP : pflag.Parse sample_args init.1 = (sample_flags, None)).
  { unfold sample_flags.
    assert (He : (pflag.Parse sample_args init.1).2 = None)
      by (vm_compute; reflexivity).
    destruct (pflag.Parse sample_args init.1) as [fs e].
    cbn in He. subst e. reflexivity. }
  split; [exact HP|].
  exact (initConfig_precedence sample_os sample_args sample_flags World0 HP).
Defined.

(** The four sources at work: the level comes from the command line although
    the file has one, the subscription from the environment although the
    file has one, the destination project from the file, and the format is
    the default.  The file is the one [CONFIG] names: the [config] flag is
    not bound to viper, and the file it names is not read. *)
Example initConfig_sample :
  initConfig sample_os sample_flags init.2 World0
  = (Ret {| LogFormat := "json";
            LogLevel := "error";
            FromGoogleCloudProject := EmptyString;
            ToGoogleCloudProject := "dst-project-from-file";
            FromGoogleApplicationCredentials := EmptyString;
            ToGoogleApplicationCredentials := EmptyString;
            PubSubSubscription := "orders-sub-from-env";
            PubSubDestinationTopic := EmptyString |},
     {| logger := logrus.std;
        events := [EvLog logrus.InfoLevel [] "Using config file: /etc/relay.yaml"] |}).
Proof. vm_compute. reflexivity. Qed.

(** ** Without overlap *)

Section Serial.

Context (env : Env) (topic : pubsub.Topic) (rs : pubsub.ReceiveSettings).
Hypothesis rs_one : pubsub.limit rs = Some 1%Z.

Let h := handler env topic.

Lemma filter_running_none (l : list (pubsub.Invocation (L := pc))) :
  length (filter (fun i => pubsub.running i = true) l) = 0%nat ->
  forall d i, l !! d = Some i -> pubsub.running i = false.
Proof.
  induction l as [|x l IH]; intros Hlen d i Hd; [discriminate|].
  rewrite filter_cons in Hlen. case_decide as Hx; [discriminate|].
  destruct d as [|d]; cbn in Hd.
  - injection Hd as <-. destruct (pubsub.running x); congruence.
  - eapply IH; eassumption.
Qed.

Lemma existsb_is_ack_of_delivery d tr :
  existsb (is_ack d) tr = existsb (is_ack d) (List.filter (of_delivery d) tr).
Proof.
  induction tr as [|e tr IH]; [reflexivity|]. cbn.
  destruct (of_delivery d e) eqn:He; cbn; [congruence|].
  destruct (is_ack d e) eqn:Ha; [|exact IH].
  apply is_ack_of_delivery in Ha. congruence.
Qed.

Lemma serial_step a p : serial p -> serial (pubsub.step h rs a p).
Proof.
  intros Hs. destruct a as [m|d0]; cbn.
  - unfold pubsub.has_room. rewrite rs_one.
    destruct (Z.ltb_spec (Z.of_nat (pubsub.outstanding p)) 1) as [Hlt|_];
      [|exact Hs].
    assert (Hnone : forall d i, pubsub.invocations p !! d = Some i ->
                                pubsub.running i = false).
    { apply filter_running_none. unfold pubsub.outstanding in Hlt. lia. }
    intros d d' i i' Hd Hd' Hr Hr'. cbn in Hd, Hd'.
    rewrite lookup_app in Hd, Hd'.
    destruct (pubsub.invocations p !! d) as [j|] eqn:Ej.
    { injection Hd as <-. rewrite (Hnone _ _ Ej) in Hr. discriminate. }
    destruct (pubsub.invocations p !! d') as [j'|] eqn:Ej'.
    { injection Hd' as <-. rewrite (Hnone _ _ Ej') in Hr'. discriminate. }
    apply lookup_ge_None in Ej, Ej'.
    destruct (d - length (pubsub.invocations p))%nat as [|k] eqn:Ek;
      [|destruct k; discriminate].
    destruct (d' - length (pubsub.invocations p))%nat as [|k'] eqn:Ek';
      [|destruct k'; discriminate].
    lia.
  - destruct (pubsub.invocations p !! d0) as [[m [l|]]|] eqn:Hd0; try exact Hs.
    destruct (handler_step env topic d0 m (pubsub.shared p) l) as [[s' l'] evs].
    intros d d' i i' Hd Hd' Hr Hr'. cbn in Hd, Hd'.
    assert (Hold : forall e j, <[d0 := {| pubsub.inv_msg := m; pubsub.inv_at := l' |}]>
                                 (pubsub.invocations p) !! e = Some j ->
                               pubsub.running j = true ->
                               exists j', pubsub.invocations p !! e = Some j'
                                          /\ pubsub.running j' = true).
    { intros e j He Hj. destruct (decide (d0 = e)) as [<-|Hne].
      - eexists. split; [exact Hd0|reflexivity].
      - rewrite list_lookup_insert_ne in He by exact Hne. eauto. }
    destruct (Hold _ _ Hd Hr) as (j & Hj & Hrj).
    destruct (Hold _ _ Hd' Hr') as (j' & Hj' & Hrj').
    exact (Hs _ _ _ _ Hj Hj' Hrj Hrj').
Qed.

Lemma own_result_step a p :
  handler_inv env topic p -> serial p -> own_result env topic p ->
  own_result env topic (pubsub.step h rs a p).
Proof.
  intros Hinv Hs Hown. destruct a as [m|d0]; cbn.
  - destruct (pubsub.has_room rs p); [|exact Hown].
    intros d i Hd. cbn in Hd |- *. rewrite lookup_app in Hd.
    destruct (pubsub.invocations p !! d) as [j|] eqn:Ej.
    + injection Hd as <-. exact (Hown d j Ej).
    + destruct (d - length (pubsub.invocations p))%nat as [|k];
        [|destruct k; discriminate].
      injection Hd as <-. exact I.
  - destruct (pubsub.invocations p !! d0) as [[m [l|]]|] eqn:Hd0;
      try exact Hown.
    assert (Hlt : (d0 < length (pubsub.invocations p))%nat)
      by (eapply lookup_lt_Some; exact Hd0).
    intros d i Hd. destruct (decide (d0 = d)) as [<-|Hne].
    + pose proof (Hown d0 _ Hd0) as Hme. pose proof (Hinv d0) as Hev.
      rewrite Hd0 in Hev. unfold delivery_events in Hev. cbn in Hme, Hev.
      destruct l; cbn in Hd |- *;
        rewrite list_lookup_insert_eq in Hd by exact Hlt;
        injection Hd as <-; cbn.
      * reflexivity.
      * rewrite Hme. destruct (env_Get env d0 topic m); cbn; auto.
      * rewrite existsb_app. cbn. rewrite Nat.eqb_refl. rewrite Hme.
        split; [apply orb_true_r|discriminate].
      * destruct Hme as [-> Hnil]. split; [exact Hnil|].
        apply in_or_app. right. left. reflexivity.
      * destruct Hme as [Hnil Hlog]. rewrite existsb_app. cbn.
        rewrite existsb_is_ack_of_delivery, Hev. cbn. rewrite Hnil.
        split; [reflexivity|]. intros _. apply in_or_app. left. exact Hlog.
    + destruct (handler_step env topic d0 m (pubsub.shared p) l)
        as [[s' l'] evs] eqn:Hstep.
      cbn in Hd |- *. rewrite list_lookup_insert_ne in Hd by exact Hne.
      pose proof (Hown d i Hd) as Hme. cbn in Hme.
      destruct (pubsub.inv_at i) as [li|] eqn:Hat.
      { exfalso. apply Hne. apply (Hs d0 d _ i Hd0 Hd); [reflexivity|].
        unfold pubsub.running. rewrite Hat. reflexivity. }
      destruct Hme as [Hack Hlog]. rewrite existsb_app.
      assert (Hevs : existsb (is_ack d) evs = false).
      { assert (Hdd : Nat.eqb d d0 = false) by (apply Nat.eqb_neq; congruence).
        destruct l; cbn in Hstep; injection Hstep as <- <- <-; cbn;
          rewrite ?Hdd; reflexivity. }
      rewrite Hevs, orb_false_r. split; [exact Hack|].
      intros Hnil. apply in_or_app. left. exact (Hlog Hnil).
Qed.

Lemma serial_own_result sched err :
  let p := pubsub.run h rs sched (pool0 err) in
  handler_inv env topic p /\ serial p /\ own_result env topic p.
Proof.
  apply (run_invariant h rs
           (fun p => handler_inv env topic p /\ serial p /\ own_result env topic p)).
  - intros a p (Hinv & Hs & Hown). split; [|split].
    + apply handler_inv_step, Hinv.
    + apply serial_step, Hs.
    + apply own_result_step; assumption.
  - split; [apply handler_inv_pool0|]. split.
    + intros d d' i i' Hd. discriminate.
    + intros d i Hd. discriminate.
Qed.

(** X10.  When the subscription lets one message through at a time the calls
    of the callback do not overlap, and C1 and C2 hold of the code: every
    delivery is published once, then acked if its publish succeeded, and
    otherwise nacked with its error logged at error level. *)
Theorem one_at_a_time_ack_iff_published sched err d i :
  let p := pubsub.run h rs sched (pool0 err) in
  let r := env_Get env d topic (pubsub.inv_msg i) in
  pubsub.invocations p !! d = Some i ->
  List.filter (of_delivery d) (pubsub.trace p)
  = [EvPublish d topic (pubsub.inv_msg i) r; if is_nil r then EvAck d else EvNack d]
  /\ (is_nil r = false -> In (inserting_error r) (pubsub.trace p)).
Proof.
  intros p r Hd.
  destruct (serial_own_result sched err) as (Hinv & _ & Hown).
  fold p in Hinv, Hown.
  assert (Hret : pubsub.inv_at i = None) by (eapply run_returned; exact Hd).
  specialize (Hinv d). specialize (Hown d i Hd).
  rewrite Hd in Hinv. unfold delivery_events in Hinv.
  destruct i as [m l]. subst r. cbn in Hret, Hown, Hinv |- *. subst l.
  destruct Hown as [Hack Hlog].
  split; [|exact Hlog].
  rewrite existsb_is_ack_of_delivery in Hack.
  destruct Hinv as [Hev|Hev]; rewrite Hev in Hack |- *; cbn in Hack;
    rewrite ?Nat.eqb_refl in Hack; cbn in Hack; rewrite <- Hack; reflexivity.
Qed.

End Serial.

(** The two scenarios of the specification, one after the other: message 2
    fails with [unavailable], is logged and nacked; message 1 is acked. *)
Example scenarios_one_at_a_time :
  pubsub.trace
    (pubsub.run (handler (sample_env [] None) sample_topic) one_at_a_time
       [ pubsub.Deliver msg2; pubsub.Step 0; pubsub.Step 0; pubsub.Step 0;
         pubsub.Step 0; pubsub.Deliver msg1; pubsub.Step 1 ]
       (pool0 None))
  = [ EvPublish 0 sample_topic msg2 (Some "unavailable");
      EvLog logrus.ErrorLevel [] "err when inserting data: unavailable";
      EvNack 0;
      EvPublish 1 sample_topic msg1 None;
      EvAck 1 ].
Proof. vm_compute. reflexivity. Qed.

(** ** [Run], path by path *)

Lemma Run_paths env cfgFile cfg w :
  Run env cfgFile cfg w
  = ((Run_outcome env cfgFile cfg).1,
     {| logger := Run_logger cfg;
        events := (events w ++ (Run_outcome env cfgFile cfg).2)%list |}).
Proof.
  unfold Run. rewrite bind_eq, SetLogger_spec.
  unfold Run_outcome, Run_prologue, Run_credentials, Run_clients,
    checked_field_empty, must_be_set, is_empty, Run_logger.
  run_unfold.
  destruct (String.eqb (FromGoogleCloudProject cfg) EmptyString); run_simpl;
    [rewrite <- !app_assoc; reflexivity|].
  destruct (String.eqb (ToGoogleCloudProject cfg) EmptyString); run_simpl;
    [rewrite <- !app_assoc; reflexivity|].
  destruct (String.eqb (PubSubSubscription cfg) EmptyString); run_simpl;
    [rewrite <- !app_assoc; reflexivity|].
  destruct (String.eqb (PubSubDestinationTopic cfg) EmptyString); run_simpl;
    [rewrite <- !app_assoc; reflexivity|].
  cbn [orb].
  destruct (env_CredentialsFromJSON env (FromGoogleApplicationCredentials cfg) _)
    as [fromCreds err1]; run_simpl.
  destruct (env_CredentialsFromJSON env (ToGoogleApplicationCredentials cfg) _)
    as [toCreds [e2|]]; run_simpl;
    [rewrite <- !app_assoc; reflexivity|].
  destruct (env_NewClient env (FromGoogleCloudProject cfg) fromCreds)
    as [fromClient err3]; run_simpl.
  destruct (env_NewClient env (ToGoogleCloudProject cfg) toCreds)
    as [toClient [e4|]]; run_simpl;
    [rewrite <- !app_assoc; reflexivity|].
  destruct fromClient as [c_from|]; run_simpl;
    [|destruct toClient; rewrite <- !app_assoc; reflexivity].
  destruct toClient as [c_to|]; run_simpl;
    [|rewrite <- !app_assoc; reflexivity].
  destruct (env_Receive env) as [e|]; run_simpl;
    rewrite <- ?app_assoc, ?app_nil_r; reflexivity.
Qed.

Lemma Run_new_events env cfgFile cfg w :
  new_events w (Run env cfgFile cfg w) = (Run_outcome env cfgFile cfg).2.
Proof. apply new_events_app. rewrite Run_paths. reflexivity. Qed.

Lemma Run_destination_credentials_invalid_witness :
  checked_field_empty cfg_bad_destination_credentials = false
  /\ env_CredentialsFromJSON (sample_env [] None) "not json" pubsub.ScopePubSub
     = (None, Some "invalid character looking for beginning of value")
  /\ Run (sample_env [] None) EmptyString cfg_bad_destination_credentials World0
     = (Exited 1,
        {| logger := Run_logger cfg_bad_destination_credentials;
           events :=
             [ Configuration_log EmptyString cfg_bad_destination_credentials;
               EvCredentialsFromJSON "{src}" pubsub.ScopePubSub;
               EvCredentialsFromJSON "not json" pubsub.ScopePubSub;
               EvLog logrus.FatalLevel []
                 "Could not find credentials: invalid character looking for beginning of value" ] |}).
Proof.
  split; [reflexivity|]. split; [reflexivity|].
  apply (Run_destination_credentials_invalid (sample_env [] None) EmptyString
           cfg_bad_destination_credentials World0 None
           "invalid character looking for beginning of value");
    reflexivity.
Defined.

Lemma Run_destination_client_fails_witness :
  checked_field_empty sample_cfg = false
  /\ env_NewClient env_no_destination_client "dst-project" (Some dst_credentials)
     = (None, Some "dial: connection refused")
  /\ Run env_no_destination_client EmptyString sample_cfg World0
     = (Exited 1,
        {| logger := Run_logger sample_cfg;
           events :=
             [ Configuration_log EmptyString sample_cfg;
               EvCredentialsFromJSON "{src}" pubsub.ScopePubSub;
               EvCredentialsFromJSON "{dst}" pubsub.ScopePubSub;
               EvNewClient "src-project" (Some src_credentials);
               EvNewClient "dst-project" (Some dst_credentials);
               EvLog logrus.FatalLevel []
                 "Could not create pubsub Client: dial: connection refused" ] |}).
Proof.
  split; [reflexivity|]. split; [reflexivity|].
  apply (Run_destination_client_fails env_no_destination_client EmptyString
           sample_cfg World0 (Some src_credentials) None (Some dst_credentials)
           None "dial: connection refused");
    reflexivity.
Defined.

(** X4.  A source client that could not be built is not reported.  When
    [NewClient] returns a nil client for the source side and no error for
    the destination side, whatever error it returned for the source side,
    [Run] logs nothing at fatal level: it has built the destination client,
    and the call of [Subscription] through the nil source client panics. *)
Theorem Run_nil_source_client_panics
    (env : Env) (cfgFile : string) (cfg : Config) (w : World)
    (fromCreds toCreds : option google.Credentials) (err1 err3 : error)
    (toClient : option pubsub.Client) :
  checked_field_empty cfg = false ->
  env_CredentialsFromJSON env (FromGoogleApplicationCredentials cfg) pubsub.ScopePubSub
  = (fromCreds, err1) ->
  env_CredentialsFromJSON env (ToGoogleApplicationCredentials cfg) pubsub.ScopePubSub
  = (toCreds, None) ->
  env_NewClient env (FromGoogleCloudProject cfg) fromCreds = (None, err3) ->
  env_NewClient env (ToGoogleCloudProject cfg) toCreds = (toClient, None) ->
  Run env cfgFile cfg w
  = (Panicked nil_dereference,
     {| logger := Run_logger cfg;
        events := (events w ++ Run_prologue cfgFile cfg ++ Run_credentials cfg
                   ++ Run_clients cfg fromCreds toCreds)%list |}).
Proof.
  intros Hchk Hfrom Hto Hcf Hct. rewrite Run_paths. unfold Run_outcome.
  rewrite Hchk, Hfrom, Hto, Hcf, Hct. cbn.
  destruct toClient; cbn; rewrite <- !app_assoc; reflexivity.
Qed.

Lemma Run_nil_source_client_panics_witness :
  checked_field_empty cfg_bad_source_credentials = false
  /\ env_NewClient (strict_env [] None) "src-project" None
     = (None, Some "could not find default credentials")
  /\ Run (strict_env [] None) EmptyString cfg_bad_source_credentials World0
     = (Panicked nil_dereference,
        {| logger := Run_logger cfg_bad_source_credentials;
           events :=
             [ Configuration_log EmptyString cfg_bad_source_credentials;
               EvCredentialsFromJSON "not json" pubsub.ScopePubSub;
               EvCredentialsFromJSON "{dst}" pubsub.ScopePubSub;
               EvNewClient "src-project" None;
               EvNewClient "dst-project" (Some dst_credentials) ] |}).
Proof.
  split; [reflexivity|]. split; [reflexivity|].
  apply (Run_nil_source_client_panics (strict_env [] None) EmptyString
           cfg_bad_source_credentials World0 None (Some dst_credentials)
           (Some "invalid character looking for beginning of value")
           (Some "could not find default credentials") (Some dst_client));
    reflexivity.
Defined.

(** X5.  The path to the receive loop.  When the four tested fields are set, the
    destination credentials and the destination client come without error
    and both clients are there, [Run] parses the two credentials, builds the
    two clients, calls [Receive] on the subscription the configuration names,
    in the source client and with the bound of the program, runs the loop
    with the topic the configuration names in the destination client, and
    ends as the error of [Receive] tells.  The errors returned for the source
    side are not looked at. *)
Theorem Run_relays
    (env : Env) (cfgFile : string) (cfg : Config) (w : World)
    (fromCreds toCreds : option google.Credentials) (err1 err3 : error)
    (c_from c_to : pubsub.Client) :
  checked_field_empty cfg = false ->
  env_CredentialsFromJSON env (FromGoogleApplicationCredentials cfg) pubsub.ScopePubSub
  = (fromCreds, err1) ->
  env_CredentialsFromJSON env (ToGoogleApplicationCredentials cfg) pubsub.ScopePubSub
  = (toCreds, None) ->
  env_NewClient env (FromGoogleCloudProject cfg) fromCreds = (Some c_from, err3) ->
  env_NewClient env (ToGoogleCloudProject cfg) toCreds = (Some c_to, None) ->
  Run env cfgFile cfg w
  = ((after_Receive (env_Receive env)).2,
     {| logger := Run_logger cfg;
        events :=
          (events w ++ Run_prologue cfgFile cfg ++ Run_credentials cfg
           ++ Run_clients cfg fromCreds toCreds
           ++ EvReceive
                (pubsub.set_MaxOutstandingMessages pubSubMaxOutstandingMessages
                   (pubsub.NewSubscription c_from (PubSubSubscription cfg)))
           :: pubsub.trace
                (pubsub.run
                   (handler env (pubsub.NewTopic c_to (PubSubDestinationTopic cfg)))
                   {| pubsub.MaxOutstandingMessages := pubSubMaxOutstandingMessages |}
                   (env_schedule env) (pool0 None))
           ++ (after_Receive (env_Receive env)).1)%list |}).
Proof.
  intros Hchk Hfrom Hto Hcf Hct. rewrite Run_paths. unfold Run_outcome.
  rewrite Hchk, Hfrom, Hto, Hcf, Hct. cbn [fst snd].
  rewrite <- !app_assoc. reflexivity.
Qed.

Lemma Run_relays_witness :
  let env := sample_env [pubsub.Deliver msg1] (Some "deadline exceeded") in
  checked_field_empty sample_cfg = false
  /\ Run env EmptyString sample_cfg World0
     = (Exited 1,
        {| logger := Run_logger sample_cfg;
           events :=
             [ Configuration_log EmptyString sample_cfg;
               EvCredentialsFromJSON "{src}" pubsub.ScopePubSub;
               EvCredentialsFromJSON "{dst}" pubsub.ScopePubSub;
               EvNewClient "src-project" (Some src_credentials);
               EvNewClient "dst-project" (Some dst_credentials);
               EvReceive sample_subscription;
               EvPublish 0 sample_topic msg1 None;
               EvAck 0;
               EvLog logrus.FatalLevel [] "deadline exceeded" ] |}).
Proof.
  cbn zeta. split; [reflexivity|].
  apply (Run_relays (sample_env [pubsub.Deliver msg1] (Some "deadline exceeded"))
           EmptyString sample_cfg World0 (Some src_credentials)
           (Some dst_credentials) None None src_client dst_client);
    reflexivity.
Defined.

Lemma Run_outcome_prologue env cfgFile cfg :
  exists rest,
    (Run_outcome env cfgFile cfg).2 = (Run_prologue cfgFile cfg ++ rest)%list.
Proof.
  unfold Run_outcome.
  destruct (checked_field_empty cfg); [eexists; reflexivity|].
  destruct (env_CredentialsFromJSON env (FromGoogleApplicationCredentials cfg) _)
    as [fromCreds err1].
  destruct (env_CredentialsFromJSON env (ToGoogleApplicationCredentials cfg) _)
    as [toCreds [e2|]]; [eexists; cbn; rewrite <- !app_assoc; reflexivity|].
  destruct (env_NewClient env (FromGoogleCloudProject cfg) fromCreds)
    as [fromClient err3].
  destruct (env_NewClient env (ToGoogleCloudProject cfg) toCreds)
    as [toClient [e4|]]; [eexists; cbn; rewrite <- !app_assoc; reflexivity|].
  destruct fromClient, toClient; eexists; cbn; rewrite <- !app_assoc; reflexivity.
Qed.

(** X7.  [Run] begins with the logger and the configuration, whatever follows.
    The events of [Run] start with what [SetLogger] logs and then the
    [Configuration] entry, at debug level, whose fields hold the whole
    configuration, the two credential documents included; this comes before
    any test of the configuration.  On every path the logger of the process
    is left as [SetLogger] set it. *)
Theorem Run_logs_configuration_first
    (env : Env) (cfgFile : string) (cfg : Config) (w : World) :
  exists fields rest,
    events (Run env cfgFile cfg w).2
    = (events w ++ SetLogger_log (LogLevel cfg)
       ++ EvLog logrus.DebugLevel fields "Configuration" :: rest)%list
    /\ In (paramFromGoogleApplicationCredentials,
           FromGoogleApplicationCredentials cfg) fields
    /\ In (paramToGoogleApplicationCredentials,
           ToGoogleApplicationCredentials cfg) fields
    /\ logger (Run env cfgFile cfg w).2
       = {| logrus.formatter := SetLogger_formatter (LogFormat cfg);
            logrus.level := SetLogger_level (LogLevel cfg) |}.
Proof.
  destruct (Run_outcome_prologue env cfgFile cfg) as [rest Hrest].
  rewrite Run_paths. cbn [snd logger events]. rewrite Hrest.
  eexists _, rest. split; [|split; [|split]].
  - unfold Run_prologue, Configuration_log. rewrite <- !app_assoc. reflexivity.
  - cbn. tauto.
  - cbn. tauto.
  - reflexivity.
Qed.

Lemma existsb_prologue (f : Event -> bool) cfgFile cfg :
  (forall l fs m, f (EvLog l fs m) = false) ->
  existsb f (Run_prologue cfgFile cfg) = false.
Proof.
  intros Hf. unfold Run_prologue, SetLogger_log, Configuration_log.
  rewrite existsb_app. destruct (logrus.ParseLevel (LogLevel cfg)).2; cbn;
    rewrite ?Hf; reflexivity.
Qed.

(** The callback publishes to the topic it was built with. *)
Lemma handler_trace_topic env topic rs sched err :
  Forall (fun e => match e with EvPublish _ t _ _ => t = topic | _ => True end)
    (pubsub.trace (pubsub.run (handler env topic) rs sched (pool0 err))).
Proof.
  apply (run_invariant (handler env topic) rs
           (fun p => Forall (fun e => match e with
                                      | EvPublish _ t _ _ => t = topic
                                      | _ => True
                                      end) (pubsub.trace p))); [|constructor].
  intros [m|d] p Hp; cbn.
  - destruct (pubsub.has_room rs p); exact Hp.
  - destruct (pubsub.invocations p !! d) as [[m [l|]]|]; try exact Hp.
    destruct l; cbn; apply Forall_app; (split; [exact Hp|]);
      repeat constructor.
Qed.

(** X6.  What the receive loop is connected to.  [Run] calls [Receive] only when
    the four tested fields are set and the destination credentials and the
    destination client came without error; the subscription is then the one
    the configuration names, taken in the client built for the source
    project, and every publish of the run goes to the topic the
    configuration names, taken in the client built for the destination
    project. *)
Theorem Run_Receive_only_if
    (env : Env) (cfgFile : string) (cfg : Config) (w : World)
    (sub : pubsub.Subscription) :
  In (EvReceive sub) (new_events w (Run env cfgFile cfg w)) ->
  checked_field_empty cfg = false
  /\ exists fromCreds err1 toCreds c_from err3 c_to,
       env_CredentialsFromJSON env (FromGoogleApplicationCredentials cfg)
         pubsub.ScopePubSub = (fromCreds, err1)
       /\ env_CredentialsFromJSON env (ToGoogleApplicationCredentials cfg)
            pubsub.ScopePubSub = (toCreds, None)
       /\ env_NewClient env (FromGoogleCloudProject cfg) fromCreds
          = (Some c_from, err3)
       /\ env_NewClient env (ToGoogleCloudProject cfg) toCreds = (Some c_to, None)
       /\ sub = pubsub.set_MaxOutstandingMessages pubSubMaxOutstandingMessages
                  (pubsub.NewSubscription c_from (PubSubSubscription cfg))
       /\ forall d t m r,
            In (EvPublish d t m r) (new_events w (Run env cfgFile cfg w)) ->
            t = pubsub.NewTopic c_to (PubSubDestinationTopic cfg).
Proof.
  rewrite Run_new_events. unfold Run_outcome.
  pose proof (existsb_prologue is_Receive cfgFile cfg (fun _ _ _ => eq_refl)) as Hpre.
  pose proof (existsb_prologue is_some_publish cfgFile cfg (fun _ _ _ => eq_refl))
    as Hpub.
  destruct (checked_field_empty cfg); cbn [snd].
  { intros Hin. apply (existsb_false_In is_Receive) in Hin;
      [discriminate|rewrite existsb_app, Hpre; reflexivity]. }
  destruct (env_CredentialsFromJSON env (FromGoogleApplicationCredentials cfg) _)
    as [fromCreds err1] eqn:Hfrom.
  destruct (env_CredentialsFromJSON env (ToGoogleApplicationCredentials cfg) _)
    as [toCreds [e2|]] eqn:Hto; cbn [snd].
  { intros Hin. apply (existsb_false_In is_Receive) in Hin;
      [discriminate|rewrite !existsb_app, Hpre; reflexivity]. }
  destruct (env_NewClient env (FromGoogleCloudProject cfg) fromCreds)
    as [fromClient err3] eqn:Hcf.
  destruct (env_NewClient env (ToGoogleCloudProject cfg) toCreds)
    as [toClient [e4|]] eqn:Hct; cbn [snd].
  { intros Hin. apply (existsb_false_In is_Receive) in Hin;
      [discriminate|rewrite !existsb_app, Hpre; reflexivity]. }
  destruct fromClient as [c_from|]; cbn [snd].
  2: { intros Hin. apply (existsb_false_In is_Receive) in Hin;
         [discriminate|rewrite !existsb_app, Hpre; reflexivity]. }
  destruct toClient as [c_to|]; cbn [snd].
  2: { intros Hin. apply (existsb_false_In is_Receive) in Hin;
         [discriminate|rewrite !existsb_app, Hpre; reflexivity]. }
  intros Hin. split; [reflexivity|].
  exists fromCreds, err1, toCreds, c_from, err3, c_to.
  split; [reflexivity|]. split; [reflexivity|].
  split; [exact Hcf|]. split; [exact Hct|].
  set (pre := ((Run_prologue cfgFile cfg ++ Run_credentials cfg)
               ++ Run_clients cfg fromCreds toCreds)%list) in *.
  assert (Hpre' : existsb is_Receive pre = false)
    by (unfold pre; rewrite !existsb_app, Hpre; reflexivity).
  assert (Hpub' : existsb is_some_publish pre = false)
    by (unfold pre; rewrite !existsb_app, Hpub; reflexivity).
  split.
  - apply in_app_or in Hin as [Hin|Hin].
    { apply (existsb_false_In _ _ _ Hpre') in Hin. discriminate. }
    destruct Hin as [Heq|Hin]; [injection Heq as <-; reflexivity|].
    apply in_app_or in Hin as [Hin|Hin].
    + eapply existsb_false_In in Hin;
        [|apply (handler_trace_quiet _ _ _ _ _ is_Receive); reflexivity].
      discriminate.
    + destruct (env_Receive env); cbn in Hin; [|contradiction].
      destruct Hin as [Heq|[]]. discriminate.
  - intros d t m r Hp. apply in_app_or in Hp as [Hp|Hp].
    { apply (existsb_false_In _ _ _ Hpub') in Hp. discriminate. }
    destruct Hp as [Heq|Hp]; [discriminate|].
    apply in_app_or in Hp as [Hp|Hp].
    + pose proof (handler_trace_topic env (Run_topic cfg c_to)
                    (pubsub.sub_ReceiveSettings (Run_subscription cfg c_from))
                    (env_schedule env) None) as Htopic.
      rewrite List.Forall_forall in Htopic. apply (Htopic _) in Hp. exact Hp.
    + destruct (env_Receive env); cbn in Hp; [|contradiction].
      destruct Hp as [Heq|[]]. discriminate.
Qed.

Lemma Run_Receive_only_if_witness :
  let env := sample_env (overlap msg1 msg2) None in
  In (EvReceive sample_subscription)
    (new_events World0 (Run env EmptyString sample_cfg World0))
  /\ checked_field_empty sample_cfg = false
  /\ exists fromCreds err1 toCreds c_from err3 c_to,
       env_CredentialsFromJSON env "{src}" pubsub.ScopePubSub = (fromCreds, err1)
       /\ env_CredentialsFromJSON env "{dst}" pubsub.ScopePubSub = (toCreds, None)
       /\ env_NewClient env "src-project" fromCreds = (Some c_from, err3)
       /\ env_NewClient env "dst-project" toCreds = (Some c_to, None)
       /\ sample_subscription
          = pubsub.set_MaxOutstandingMessages pubSubMaxOutstandingMessages
              (pubsub.NewSubscription c_from "orders-sub")
       /\ forall d t m r,
            In (EvPublish d t m r)
              (new_events World0 (Run env EmptyString sample_cfg World0)) ->
            t = pubsub.NewTopic c_to "orders-copy".
Proof.
  cbn zeta.
  assert (Hin : In (EvReceive sample_subscription)
                  (new_events World0
                     (Run (sample_env (overlap msg1 msg2) None) EmptyString
                        sample_cfg World0)))
    by (vm_compute; do 5 right; left; reflexivity).
  split; [exact Hin|].
  exact (Run_Receive_only_if (sample_env (overlap msg1 msg2) None) EmptyString
           sample_cfg World0 sample_subscription Hin).
Defined.

(** ** The callback, whatever the interleaving *)

(** X8.  C3 and C7 count the events of a delivery; this is their order.  At any
    point of any execution of the receive loop, what the two brokers have
    seen of delivery [d] is nothing while its callback has not published,
    its one publish while the callback runs, and once the callback has
    returned the publish followed by one ack or one nack: the source
    message is never acked or nacked before the publish has returned, and
    never published again. *)
Theorem delivery_events_in_order
    (env : Env) (topic : pubsub.Topic) (rs : pubsub.ReceiveSettings)
    (sched : list pubsub.Action) (err : error)
    (d : nat) (i : pubsub.Invocation (L := pc)) :
  let p := pubsub.exec (handler env topic) rs sched (pool0 err) in
  let pub := EvPublish d topic (pubsub.inv_msg i)
               (env_Get env d topic (pubsub.inv_msg i)) in
  pubsub.invocations p !! d = Some i ->
  match pubsub.inv_at i with
  | Some AtPublish => List.filter (of_delivery d) (pubsub.trace p) = []
  | Some _ => List.filter (of_delivery d) (pubsub.trace p) = [pub]
  | None =>
      List.filter (of_delivery d) (pubsub.trace p) = [pub; EvAck d]
      \/ List.filter (of_delivery d) (pubsub.trace p) = [pub; EvNack d]
  end.
Proof.
  intros p pub Hd.
  pose proof (handler_inv_exec env topic rs sched err d) as Hinv.
  fold p in Hinv. rewrite Hd in Hinv. unfold delivery_events in Hinv.
  destruct i as [m [[]|]]; exact Hinv.
Qed.

Lemma delivery_events_in_order_witness :
  let p := pubsub.exec (handler (sample_env [] None) sample_topic) sample_rs
             (overlap msg1 msg2) (pool0 None) in
  pubsub.invocations p !! 0%nat
  = Some {| pubsub.inv_msg := msg1; pubsub.inv_at := Some AtErrorf |}
  /\ List.filter (of_delivery 0) (pubsub.trace p)
     = [EvPublish 0 sample_topic msg1 None].
Proof.
  cbn zeta. split; [reflexivity|].
  apply (delivery_events_in_order (sample_env [] None) sample_topic sample_rs
           (overlap msg1 msg2) None 0
           {| pubsub.inv_msg := msg1; pubsub.inv_at := Some AtErrorf |}).
  reflexivity.
Defined.

Lemma filter_length_insert {A} (P : A -> bool) (l : list A) d x y :
  l !! d = Some x ->
  (length (filter (fun i => P i = true) (<[d := y]> l)) + (if P x then 1 else 0)
   = length (filter (fun i => P i = true) l) + (if P y then 1 else 0))%nat.
Proof.
  intros Hd.
  rewrite <- (take_drop_middle l d x Hd) at 2.
  rewrite insert_take_drop by (eapply lookup_lt_Some; exact Hd).
  rewrite !filter_app, !length_app, !filter_cons.
  destruct (P x) eqn:Hx, (P y) eqn:Hy; repeat case_decide; try congruence;
    cbn; lia.
Qed.

Lemma filter_length_none {A} (P : A -> bool) (l : list A) :
  (forall d i, l !! d = Some i -> P i = false) ->
  length (filter (fun i => P i = true) l) = 0%nat.
Proof.
  induction l as [|x l IH]; intros H; [reflexivity|].
  rewrite filter_cons. pose proof (H 0%nat x eq_refl) as Hx.
  case_decide; [congruence|]. apply IH. intros d i Hd. exact (H (S d) i Hd).
Qed.

Lemma count_app f (tr1 tr2 : list Event) :
  count f (tr1 ++ tr2) = (count f tr1 + count f tr2)%nat.
Proof. unfold count. rewrite List.filter_app. apply length_app. Qed.

(** Every action keeps the error entries of the callback in step with its
    nacks: one entry per nack made or about to be made. *)
Lemma nack_log_step env topic rs a p :
  (count (is_Log logrus.ErrorLevel) (pubsub.trace p)
   = count is_some_nack (pubsub.trace p)
     + length (filter (fun i => at_nack i = true) (pubsub.invocations p)))%nat ->
  let p' := pubsub.step (handler env topic) rs a p in
  (count (is_Log logrus.ErrorLevel) (pubsub.trace p')
   = count is_some_nack (pubsub.trace p')
     + length (filter (fun i => at_nack i = true) (pubsub.invocations p')))%nat.
Proof.
  intros Hp. destruct a as [m|d]; cbn -[count].
  - destruct (pubsub.has_room rs p); [|exact Hp]. cbn -[count].
    rewrite filter_app, length_app, filter_cons, filter_nil.
    case_decide as Hn; [discriminate Hn|]. cbn -[count]. lia.
  - destruct (pubsub.invocations p !! d) as [[m [l|]]|] eqn:Hd; try exact Hp.
    destruct (handler_step env topic d m (pubsub.shared p) l)
      as [[s' l'] evs] eqn:Hstep.
    cbn -[count]. rewrite !count_app.
    pose proof (filter_length_insert at_nack (pubsub.invocations p) d _
                  {| pubsub.inv_msg := m; pubsub.inv_at := l' |} Hd) as Hins.
    assert (Hevs : (count (is_Log logrus.ErrorLevel) evs
                    + (if at_nack {| pubsub.inv_msg := m; pubsub.inv_at := Some l |}
                       then 1 else 0)
                    = count is_some_nack evs
                      + (if at_nack {| pubsub.inv_msg := m; pubsub.inv_at := l' |}
                         then 1 else 0))%nat).
    { destruct l; cbn in Hstep; injection Hstep as <- <- <-;
        unfold count; cbn [List.filter is_some_nack is_Log at_nack pubsub.inv_at];
        rewrite ?(bool_decide_eq_true_2 _ (eq_refl logrus.ErrorLevel));
        try reflexivity.
      destruct (is_nil (pubsub.shared p)); reflexivity. }
    lia.
Qed.

(** X9.  An error entry for every nack.  In every execution of the receive loop,
    overlapping callbacks included, when [Receive] returns the callback has
    logged at error level exactly as many entries as it has nacked
    messages: a nack always comes with its [Errorf], and nothing is logged
    for a message that is acked. *)
Theorem every_nack_is_logged
    (env : Env) (topic : pubsub.Topic) (rs : pubsub.ReceiveSettings)
    (sched : list pubsub.Action) (err : error) :
  let p := pubsub.run (handler env topic) rs sched (pool0 err) in
  count (is_Log logrus.ErrorLevel) (pubsub.trace p)
  = count is_some_nack (pubsub.trace p).
Proof.
  intros p.
  assert (Hinv : (count (is_Log logrus.ErrorLevel) (pubsub.trace p)
                  = count is_some_nack (pubsub.trace p)
                    + length (filter (fun i => at_nack i = true)
                                (pubsub.invocations p)))%nat).
  { apply (run_invariant (handler env topic) rs
             (fun p => (count (is_Log logrus.ErrorLevel) (pubsub.trace p)
                        = count is_some_nack (pubsub.trace p)
                          + length (filter (fun i => at_nack i = true)
                                      (pubsub.invocations p)))%nat));
      [|reflexivity].
    intros a q. apply nack_log_step. }
  rewrite Hinv, (filter_length_none at_nack); [lia|].
  intros d i Hd. unfold at_nack.
  rewrite (run_returned env topic rs sched (pool0 err) d i Hd). reflexivity.
Qed.

Lemma one_at_a_time_ack_iff_published_witness :
  let sched := [ pubsub.Deliver msg2; pubsub.Step 0; pubsub.Step 0; pubsub.Step 0;
                 pubsub.Step 0; pubsub.Deliver msg1; pubsub.Step 1 ] in
  let p := pubsub.run (handler (sample_env [] None) sample_topic) one_at_a_time
             sched (pool0 None) in
  pubsub.limit one_at_a_time = Some 1%Z
  /\ pubsub.invocations p !! 0%nat
     = Some {| pubsub.inv_msg := msg2; pubsub.inv_at := None |}
  /\ List.filter (of_delivery 0) (pubsub.trace p)
     = [EvPublish 0 sample_topic msg2 (Some "unavailable"); EvNack 0]
  /\ (is_nil (Some "unavailable") = false ->
      In (inserting_error (Some "unavailable")) (pubsub.trace p)).
Proof.
  cbn zeta. split; [reflexivity|]. split; [reflexivity|].
  apply (one_at_a_time_ack_iff_published (sample_env [] None) sample_topic
           one_at_a_time eq_refl
           [ pubsub.Deliver msg2; pubsub.Step 0; pubsub.Step 0; pubsub.Step 0;
             pubsub.Step 0; pubsub.Deliver msg1; pubsub.Step 1 ]
           None 0 {| pubsub.inv_msg := msg2; pubsub.inv_at := None |}).
  reflexivity.
Defined.

(** ** [initConfig] and [Execute] *)

Lemma GetString_config os flags :
  viper.GetString os flags
    (viper.AutomaticEnv (viper.SetEnvKeyReplacer "-" "_" init.2)) paramConfig
  = default EmptyString (from_env os paramConfig).
Proof.
  set (v1 := viper.AutomaticEnv (viper.SetEnvKeyReplacer "-" "_" init.2)).
  unfold viper.GetString, viper.find.
  change (ToLower paramConfig) with paramConfig.
  replace (viper.pflags v1) with (viper.pflags init.2) by reflexivity.
  rewrite (decide_False (P := paramConfig ∈ viper.pflags init.2))
    by exact config_not_bound.
  change (viper.automaticEnvApplied v1) with true. cbn match.
  change (viper.getEnv os v1 (ToUpper paramConfig)) with (from_env os paramConfig).
  destruct (from_env os paramConfig); [reflexivity|].
  change (viper.config v1) with (∅ : gmap string string).
  rewrite lookup_empty. reflexivity.
Qed.

(** X11.  The configuration file is optional and its absence is silent.
    [initConfig] returns a configuration for every environment, set of
    files and flags.  It logs [Using config file], at info level, exactly
    when the environment variable [CONFIG] names a file that could be read;
    when the variable is unset or empty, or the file cannot be read, the
    error of [ReadInConfig] is dropped and nothing is logged.  The logger is
    not touched. *)
Theorem initConfig_config_file
    (os : OS) (flags : gmap string pflag.Flag) (w : World) :
  exists cfg w',
    initConfig os flags init.2 w = (Ret cfg, w')
    /\ logger w' = logger w
    /\ events w'
       = (events w
          ++ match from_env os paramConfig with
             | Some path =>
                 match files os !! path with
                 | Some _ => [EvLog logrus.InfoLevel []
                                ("Using config file: " ++ path)%string]
                 | None => []
                 end
             | None => []
             end)%list.
Proof.
  unfold initConfig. rewrite GetString_config.
  destruct (from_env os paramConfig) as [path|] eqn:Henv; cbn [default id].
  - pose proof (from_env_not_empty _ _ _ Henv) as Hne.
    unfold viper.SetConfigFile, viper.ReadInConfig. rewrite Hne.
    cbn [viper.configFile]. rewrite Hne.
    destruct (files os !! path) as [settings|]; cbn;
      eexists _, _; (split; [reflexivity|]); split;
      rewrite ?app_nil_r; reflexivity.
  - unfold viper.SetConfigFile, viper.ReadInConfig. cbn.
    eexists _, _. split; [reflexivity|]. split; rewrite ?app_nil_r; reflexivity.
Qed.

Lemma GetString_ext os flags flags' v key :
  (forall k, k ∈ viper.pflags v -> flags !! k = flags' !! k) ->
  viper.GetString os flags v key = viper.GetString os flags' v key.
Proof.
  intros H. unfold viper.GetString, viper.find.
  destruct (decide (ToLower key ∈ viper.pflags v)) as [Hin|Hout];
    [rewrite (H _ Hin)|]; reflexivity.
Qed.

Lemma ReadInConfig_pflags os v name :
  viper.pflags (viper.ReadInConfig os (viper.SetConfigFile name v)).1
  = viper.pflags v.
Proof.
  unfold viper.ReadInConfig, viper.SetConfigFile.
  destruct (String.eqb name EmptyString); cbn [viper.configFile].
  - destruct (String.eqb (viper.configFile v) EmptyString); [reflexivity|].
    destruct (files os !! viper.configFile v); reflexivity.
  - destruct (String.eqb name EmptyString); [reflexivity|].
    destruct (files os !! name); reflexivity.
Qed.

(** [initConfig] reads the flags that are bound to viper, and no other. *)
Lemma initConfig_ext os flags flags' w :
  (forall k, k ∈ viper.pflags init.2 -> flags !! k = flags' !! k) ->
  initConfig os flags init.2 w = initConfig os flags' init.2 w.
Proof.
  intros H. unfold initConfig. rewrite !GetString_config.
  set (v1 := viper.AutomaticEnv (viper.SetEnvKeyReplacer "-" "_" init.2)).
  pose proof (ReadInConfig_pflags os v1 (default EmptyString (from_env os paramConfig)))
    as Hp.
  destruct (viper.ReadInConfig os _) as [v err]. cbn [fst] in Hp.
  assert (Hv : forall k, k ∈ viper.pflags v -> flags !! k = flags' !! k).
  { intros k Hk. apply H. rewrite Hp in Hk. exact Hk. }
  rewrite !(GetString_ext os flags flags' v _ Hv). reflexivity.
Qed.

Lemma bound_declared k :
  k ∈ viper.pflags init.2 ->
  k <> paramConfig /\ exists f0, init.1 !! k = Some f0.
Proof.
  intros Hk. split.
  - intros ->. exact (config_not_bound Hk).
  - unfold init, configureFlag, viper.BindPFlag, viper.New in Hk.
    cbn [fst snd viper.pflags] in Hk.
    rewrite !elem_of_union, !elem_of_singleton in Hk.
    repeat (destruct Hk as [Hk|Hk];
            [subst k; eexists; vm_compute; reflexivity|]).
    apply elem_of_empty in Hk. contradiction.
Qed.

(** X12.  The [config] flag has no effect on the configuration.  Two command
    lines that differ only in the value they give to [--config], or in
    whether they give one, resolve to the same configuration with the same
    log: the flag is declared but not bound to viper, and the file is looked
    for under the name the environment gives. *)
Theorem initConfig_ignores_config_flag
    (os : OS) (args args' : list (string * string))
    (flags flags' : gmap string pflag.Flag) (w : World) :
  pflag.Parse args init.1 = (flags, None) ->
  pflag.Parse args' init.1 = (flags', None) ->
  (forall k, k <> paramConfig -> given args k = given args' k) ->
  initConfig os flags init.2 w = initConfig os flags' init.2 w.
Proof.
  intros HP HP' Hsame. apply initConfig_ext. intros k Hk.
  destruct (bound_declared k Hk) as [Hne [f0 Hf0]].
  rewrite (Parse_lookup args _ _ _ _ HP Hf0),
    (Parse_lookup args' _ _ _ _ HP' Hf0), (Hsame k Hne).
  reflexivity.
Qed.

Lemma Parse_fst_None args fs :
  (pflag.Parse args fs).2 = None ->
  pflag.Parse args fs = ((pflag.Parse args fs).1, None).
Proof. destruct (pflag.Parse args fs) as [fs' e]. cbn. intros ->. reflexivity. Qed.

Lemma initConfig_ignores_config_flag_witness :
  pflag.Parse sample_args init.1 = (sample_flags, None)
  /\ pflag.Parse sample_args_no_config init.1 = (sample_flags_no_config, None)
  /\ given sample_args paramConfig = Some "/home/relay/other.yaml"
  /\ given sample_args_no_config paramConfig = None
  /\ initConfig sample_os sample_flags init.2 World0
     = initConfig sample_os sample_flags_no_config init.2 World0.
Proof.
  assert (HP : pflag.Parse sample_args init.1 = (sample_flags, None))
    by (apply Parse_fst_None; vm_compute; reflexivity).
  assert (HP' : pflag.Parse sample_args_no_config init.1
                = (sample_flags_no_config, None))
    by (apply Parse_fst_None; vm_compute; reflexivity).
  split; [exact HP|]. split; [exact HP'|].
  split; [reflexivity|]. split; [reflexivity|].
  apply (initConfig_ignores_config_flag sample_os sample_args
           sample_args_no_config sample_flags sample_flags_no_config World0 HP HP').
  intros k Hk. unfold sample_args, sample_args_no_config. cbn [given].
  destruct (String.eqb_spec paramConfig k) as [Heq|_]; [congruence|reflexivity].
Defined.

(** *** The command line *)

Lemma Execute_parsed env args flags w :
  pflag.Parse args init.1 = (flags, None) ->
  Execute env args w
  = (cfg ← initConfig (env_os env) flags init.2;
     Run env (default EmptyString (pflag.Value <$> flags !! paramConfig)) cfg) w.
Proof.
  intros HP. unfold Execute. destruct init as [flags0 v0] eqn:Hinit.
  cbn [fst snd] in *. rewrite HP. reflexivity.
Qed.

(** *** From the command line to the first test of [Run] *)

Lemma initConfig_logs os flags w cfg w' :
  initConfig os flags init.2 w = (Ret cfg, w') ->
  exists l, events w' = (events w ++ l)%list
            /\ forall f : Event -> bool,
                 (forall lv fs m, f (EvLog lv fs m) = false) ->
                 existsb f l = false.
Proof.
  unfold initConfig. rewrite GetString_config.
  destruct (viper.ReadInConfig os _) as [v [e|]]; cbn; intros [= _ <-].
  - exists []. split; [rewrite app_nil_r; reflexivity|]. reflexivity.
  - eexists [_]. split; [reflexivity|]. intros f Hf. cbn. rewrite Hf. reflexivity.
Qed.

Lemma checked_param_declared k :
  In k checked_params ->
  init.1 !! k = Some {| pflag.DefValue := EmptyString; pflag.Value := EmptyString;
                        pflag.Changed := false |}
  /\ ToLower k = k /\ k ∈ viper.pflags init.2.
Proof.
  intros Hk. cbn in Hk.
  repeat (destruct Hk as [<-|Hk];
          [ split; [vm_compute; reflexivity|];
            split; [vm_compute; reflexivity|];
            apply (bool_decide_eq_true_1 _); vm_compute; reflexivity | ]).
  contradiction.
Qed.

(** X14.  A required parameter that nothing provides.  Take one of the four
    parameters [Run] tests (the two projects, the subscription, the topic).
    If the command line does not give it, the environment does not set its
    variable and the configuration file has no value for it, then [Execute]
    ends with status 1, and the last thing the process does is to write on
    stderr that a variable must be set; the variable it names is the
    environment variable of one of the four parameters.  No credential has
    been parsed, no client built, and the receive loop is not entered. *)
Theorem Execute_missing_parameter
    (env : Env) (args : list (string * string)) (flags : gmap string pflag.Flag)
    (w : World) (k : string) :
  pflag.Parse args init.1 = (flags, None) ->
  In k checked_params ->
  given args k = None ->
  from_env (env_os env) k = None ->
  from_file (env_os env) !! k = None ->
  (Execute env args w).1 = Exited 1
  /\ (exists k',
        In k' checked_params
        /\ last (events (Execute env args w).2)
           = Some (EvStderr (env_name k' ++ " variable must be set." ++ nl)))
  /\ existsb is_CredentialsFromJSON (new_events w (Execute env args w)) = false
  /\ existsb is_NewClient (new_events w (Execute env args w)) = false
  /\ existsb is_Receive (new_events w (Execute env args w)) = false.
Proof.
  intros HP Hk Hgiven Henv Hfile.
  destruct (checked_param_declared k Hk) as (Hf0 & Hlow & Hbound).
  pose proof (Parse_lookup args _ _ _ _ HP Hf0) as Hflag.
  rewrite Hgiven in Hflag. cbn [parsed_flag] in Hflag.
  rewrite (Execute_parsed env args flags w HP), bind_eq.
  destruct (initConfig_spec (env_os env) flags w) as (v & w' & Hinit & Hready).
  pose proof (GetString_ready (env_os env) flags v k _ Hready Hlow Hbound Hflag)
    as Hget.
  cbn [pflag.Changed pflag.Value] in Hget. rewrite Henv, Hfile in Hget.
  destruct (initConfig_logs _ _ _ _ _ Hinit) as (l & Hl & Hquiet).
  rewrite Hinit, Run_paths.
  match goal with |- context [Run_outcome env ?f ?c] =>
    set (cfgFile := f); set (cfg := c) end.
  assert (Hchk : checked_field_empty cfg = true).
  { unfold checked_field_empty, is_empty, cfg. cbn [FromGoogleCloudProject
      ToGoogleCloudProject PubSubSubscription PubSubDestinationTopic].
    cbn in Hk.
    destruct Hk as [<-|[<-|[<-|[<-|[]]]]]; rewrite Hget; cbn;
      rewrite ?orb_true_r; reflexivity. }
  unfold new_events, Run_outcome. rewrite Hchk. cbn [fst snd events].
  split; [reflexivity|]. split.
  - unfold must_be_set. rewrite !app_assoc.
    destruct (is_empty (FromGoogleCloudProject cfg));
      [exists paramFromGoogleCloudProject
      |destruct (is_empty (ToGoogleCloudProject cfg));
        [exists paramToGoogleCloudProject
        |destruct (is_empty (PubSubSubscription cfg));
          [exists paramPubSubSubscription|exists paramPubSubDestinationTopic]]];
      (split; [cbn; tauto|rewrite last_snoc; reflexivity]).
  - rewrite Hl, <- !app_assoc, drop_app_length, !existsb_app.
    rewrite !(existsb_prologue _ cfgFile cfg), !Hquiet by reflexivity.
    repeat split; reflexivity.
Qed.

Lemma Execute_missing_parameter_witness :
  pflag.Parse [] init.1 = (init.1, None)
  /\ In paramPubSubSubscription checked_params
  /\ given [] paramPubSubSubscription = None
  /\ from_env os_no_subscription paramPubSubSubscription = None
  /\ from_file os_no_subscription !! paramPubSubSubscription = None
  /\ (Execute env_no_subscription [] World0).1 = Exited 1
  /\ (exists k',
        In k' checked_params
        /\ last (events (Execute env_no_subscription [] World0).2)
           = Some (EvStderr (env_name k' ++ " variable must be set." ++ nl)))
  /\ existsb is_CredentialsFromJSON
       (new_events World0 (Execute env_no_subscription [] World0)) = false
  /\ existsb is_NewClient
       (new_events World0 (Execute env_no_subscription [] World0)) = false
  /\ existsb is_Receive
       (new_events World0 (Execute env_no_subscription [] World0)) = false.
Proof.
  assert (Hin : In paramPubSubSubscription checked_params)
    by (cbn; tauto).
  assert (Henv : from_env os_no_subscription paramPubSubSubscription = None)
    by (vm_compute; reflexivity).
  assert (Hfile : from_file os_no_subscription !! paramPubSubSubscription = None)
    by (vm_compute; reflexivity).
  do 5 (split; [first [reflexivity|assumption]|]).
  exact (Execute_missing_parameter env_no_subscription [] init.1 World0
           paramPubSubSubscription eq_refl Hin eq_refl Henv Hfile).
Defined.

Example Execute_no_subscription :
  Execute env_no_subscription [] World0
  = (Exited 1,
     {| logger := {| logrus.formatter := logrus.JSONFormatter "severity" "message";
                     logrus.level := logrus.DebugLevel |};
        events :=
          [ EvLog logrus.DebugLevel
              [ (paramConfig, EmptyString); (paramLogLevel, "debug");
                (paramLogFormat, "json");
                (paramFromGoogleCloudProject, "src-project");
                (paramToGoogleCloudProject, "dst-project");
                (paramFromGoogleApplicationCredentials, EmptyString);
                (paramToGoogleApplicationCredentials, EmptyString);
                (paramPubSubSubscription, EmptyString);
                (paramPubSubDestinationTopic, "orders-copy") ]
              "Configuration";
            EvStderr ("PUBSUB_SUBSCRIPTION variable must be set." ++ nl) ] |}).
Proof. vm_compute. reflexivity. Qed.

(** X15.  The environment.  Every parameter can be set by the environment
    variable whose name is the name of the parameter in upper case with
    underscores for dashes.  When the command line does not give the
    parameter and its variable is set to a non-empty value, that value is
    the field, whatever the configuration file and the default say; a
    variable that is set to the empty string does not count: the field is
    what the configuration file gives, and the default otherwise. *)
Theorem initConfig_environment
    (os : OS) (args : list (string * string)) (flags : gmap string pflag.Flag)
    (w : World) :
  pflag.Parse args init.1 = (flags, None) ->
  exists cfg w',
    initConfig os flags init.2 w = (Ret cfg, w')
    /\ forall k field dflt,
         In (k, field) Config_fields ->
         pflag.DefValue <$> init.1 !! k = Some dflt ->
         given args k = None ->
         (forall e, environ os !! Replace "-" "_" (ToUpper k) = Some e ->
                    e <> EmptyString -> field cfg = StringField e)
         /\ (environ os !! Replace "-" "_" (ToUpper k) = Some EmptyString ->
             field cfg = StringField (default dflt (from_file os !! k))).
Proof.
  intros HP. destruct (initConfig_spec os flags w) as (v & w' & Hinit & Hready).
  match type of Hinit with _ = (Ret ?c, _) => set (cfg := c) in * end.
  exists cfg, w'. split; [exact Hinit|].
  intros k field dflt Hin Hd Hgiven.
  destruct (init_declares k field Hin) as (d & Hf0 & Hlow & Hbound & Hfield).
  specialize (Hfield cfg v os flags eq_refl).
  rewrite Hf0 in Hd. cbn in Hd. injection Hd as <-.
  pose proof (Parse_lookup args _ _ _ _ HP Hf0) as Hflag.
  rewrite Hgiven in Hflag. cbn [parsed_flag] in Hflag.
  rewrite Hfield, (GetString_ready os flags v k _ Hready Hlow Hbound Hflag).
  cbn [pflag.Changed pflag.Value]. unfold from_env, env_name.
  split.
  - intros e He Hne. rewrite He.
    destruct (String.eqb_spec e EmptyString) as [->|_]; [congruence|reflexivity].
  - intros He. rewrite He. cbn. destruct (from_file os !! k); reflexivity.
Qed.

Lemma initConfig_environment_witness :
  pflag.Parse sample_args init.1 = (sample_flags, None)
  /\ exists cfg w',
       initConfig sample_os sample_flags init.2 World0 = (Ret cfg, w')
       /\ forall k field dflt,
            In (k, field) Config_fields ->
            pflag.DefValue <$> init.1 !! k = Some dflt ->
            given sample_args k = None ->
            (forall e, environ sample_os !! Replace "-" "_" (ToUpper k) = Some e ->
                       e <> EmptyString -> field cfg = StringField e)
            /\ (environ sample_os !! Replace "-" "_" (ToUpper k) = Some EmptyString ->
                field cfg = StringField (default dflt (from_file sample_os !! k))).
Proof.
  assert (HP : pflag.Parse sample_args init.1 = (sample_flags, None))
    by (apply Parse_fst_None; vm_compute; reflexivity).
  split; [exact HP|].
  exact (initConfig_environment sample_os sample_args sample_flags World0 HP).
Defined.
